(** * The metrics query engine of vibe-personal-dashboard-backend

    A shallow embedding of the Go packages [models], [config], [repository]
    and [service], and the properties of the query orchestration engine
    that the specification states about them.

    Conventions of the embedding.
    - A Go [string] is a [string]; a [map[string]T] is a [gmap string T]
      (a nil map reads like the empty map); a slice is a [list] (a nil
      slice reads like the empty one: [len] is 0 for both).
    - A Go [error] is an [option error], [None] being [nil]; a function
      returning [(T, error)] returns a pair, as the source does.
    - [interface{}] values are the closed set of dynamic types that the
      driver and the parameter conversion produce ([any]). *)

From Stdlib Require Import ZArith Ascii String List Bool Lia PrimFloat.
From Stdlib Require Import Floats.SpecFloat Floats.FloatOps.
From stdpp Require Import base option list strings pretty gmap.

Local Open Scope string_scope.
#[local] Set Warnings "-register-all".

(** ** Errors

    [errors.New] and [fmt.Errorf] values. An [errVar] is a package-level
    error variable ([var ErrX = errors.New(text)]), which Go compares by
    identity: its name tells it from any other error of the same text. An
    [Errorf] keeps the format string of its call site, the string arguments
    in order, and the error wrapped by a trailing [%w], if any. *)
Inductive error : Type :=
| errors_New (text : string)
| errVar (name text : string)
| NumError (Func Num : string) (Err : error)
| Errorf (format : string) (args : list string) (wrapped : option error).

(** The values an [interface{}] holds in this program: what [database/sql]
    hands to a [*interface{}] destination and what the parameter conversion
    produces. *)
Inductive any : Type :=
| nil_any
| int64 (n : Z)
| float64 (f : float)
| str (s : string)
| bytes (b : list ascii)
| boolean (b : bool)
| time_Time (unixNano : Z).

#[global] Instance any_inhabited : Inhabited any := populate nil_any.

(** A [context.Context], as far as the program can observe one: whether it
    has been cancelled. *)
Record Context := { Done : bool }.

Definition Background : Context := {| Done := false |}.

(** ** Package models *)
Module Models.

(** [type ParamType string] *)
Definition ParamType := string.
Definition ParamTypeString : ParamType := "string".
Definition ParamTypeInt : ParamType := "int".
Definition ParamTypeFloat : ParamType := "float".

Definition IsValid (pt : ParamType) : bool :=
  if decide (pt = ParamTypeString) then true
  else if decide (pt = ParamTypeInt) then true
  else if decide (pt = ParamTypeFloat) then true
  else false.

Definition ErrParamNameEmpty : error :=
  errVar "models.ErrParamNameEmpty" "parameter name cannot be empty".
Definition ErrInvalidParamType : error :=
  errVar "models.ErrInvalidParamType" "parameter type must be string, int, or float".

Record ParamDefinition := {
  pd_Name : string;
  pd_Type : ParamType;
  pd_Required : bool
}.

Definition ParamDefinition_Validate (pd : ParamDefinition) : option error :=
  if decide (pd_Name pd = "") then Some ErrParamNameEmpty
  else if negb (IsValid (pd_Type pd)) then Some ErrInvalidParamType
  else None.

Definition ErrMetricNameEmpty : error :=
  errVar "models.ErrMetricNameEmpty" "metric name cannot be empty".
Definition ErrMetricQueryEmpty : error :=
  errVar "models.ErrMetricQueryEmpty" "metric query cannot be empty".

Record Metric := {
  Name : string;
  Query : string;
  MultiRow : bool;
  Params : list ParamDefinition
}.

(** The loop of [Metric.Validate] over [m.Params]: the first failing
    parameter definition decides. *)
Fixpoint validateParams (ps : list ParamDefinition) : option error :=
  match ps with
  | [] => None
  | param :: rest =>
      match ParamDefinition_Validate param with
      | Some err => Some err
      | None => validateParams rest
      end
  end.

Definition Validate (m : Metric) : option error :=
  if decide (Name m = "") then Some ErrMetricNameEmpty
  else if decide (Query m = "") then Some ErrMetricQueryEmpty
  else validateParams (Params m).

(** [MetricResult.Value] is an [interface{}] that holds either the scalar
    of a single-value query or the [[]map[string]interface{}] of a
    multi-row one. *)
Inductive Value : Type :=
| Scalar (v : any)
| RowSet (rows : list (gmap string any)).

Record MetricResult := {
  mr_Name : string;
  mr_Value : Value
}.

(** The zero value of the struct, which [make([]MetricResult, n)] fills
    the slice with. *)
Definition MetricResult_zero : MetricResult :=
  {| mr_Name := ""; mr_Value := Scalar nil_any |}.

(** [ParamDefinition{}], the zero value of the struct. *)
Definition ParamDefinition_zero : ParamDefinition :=
  {| pd_Name := ""; pd_Type := ""; pd_Required := false |}.

(** The loop of [GetParamByName] over [m.Params]. *)
Fixpoint findParam (ps : list ParamDefinition) (name : string) : ParamDefinition * bool :=
  match ps with
  | [] => (ParamDefinition_zero, false)
  | param :: rest =>
      if decide (pd_Name param = name) then (param, true) else findParam rest name
  end.

Definition GetParamByName (m : Metric) (name : string) : ParamDefinition * bool :=
  findParam (Params m) name.

End Models.

(** ** Package strconv (Go's standard library) *)
Module Strconv.

Local Open Scope Z_scope.

Definition ErrSyntax : error := errVar "strconv.ErrSyntax" "invalid syntax".
Definition ErrRange : error := errVar "strconv.ErrRange" "value out of range".

Definition syntaxError (fn s : string) : error := NumError fn s ErrSyntax.
Definition rangeError (fn s : string) : error := NumError fn s ErrRange.

Definition maxUint64 : Z := 2 ^ 64 - 1.

Definition isDigit (c : ascii) : bool :=
  (48 <=? Z.of_N (N_of_ascii c)) && (Z.of_N (N_of_ascii c) <=? 57).

Definition digitVal (c : ascii) : Z := Z.of_N (N_of_ascii c) - 48.

(** The two ways a parse fails: [ErrSyntax] and [ErrRange]. *)
Inductive failure := Syntax | Range.

(** The digit loop of the unsigned base-10 parse, on the value read so
    far. The first of the two events, a byte that is not a decimal digit
    or the value leaving the unsigned 64-bit range, decides the failure. *)
Fixpoint parseDigits (n : Z) (s : string) : Z + failure :=
  match s with
  | EmptyString => inl n
  | String c rest =>
      if isDigit c then
        let n1 := n * 10 + digitVal c in
        if n1 >? maxUint64 then inr Range else parseDigits n1 rest
      else inr Syntax
  end.

Definition parseUint (s : string) : Z + failure :=
  if decide (s = "") then inr Syntax else parseDigits 0 s.

(** Modelled from the spec: [strconv.ParseInt(s, 10, 64)] of Go's standard
    library, which the repository calls and does not contain; the spec's
    "base-10 signed 64-bit parse". An optional sign, then a non-empty run
    of decimal digits whose value lies in [-2^63, 2^63 - 1]; the failure is
    a [*NumError] for the whole input. *)
Definition ParseInt (s : string) : Z * option error :=
  match s with
  | EmptyString => (0, Some (syntaxError "ParseInt" s))
  | String c rest =>
      let neg := bool_decide (c = "-"%char) in
      let body := if bool_decide (c = "+"%char) || neg then rest else s in
      match parseUint body with
      | inr Syntax => (0, Some (syntaxError "ParseInt" s))
      | inr Range =>
          (if neg then - 2 ^ 63 else 2 ^ 63 - 1, Some (rangeError "ParseInt" s))
      | inl un =>
          if negb neg && (2 ^ 63 <=? un) then (2 ^ 63 - 1, Some (rangeError "ParseInt" s))
          else if neg && (2 ^ 63 <? un) then (- 2 ^ 63, Some (rangeError "ParseInt" s))
          else (if neg then - un else un, None)
      end
  end.

(** [strconv.ParseFloat(s, 64)] of Go's standard library. Parsing and
    rounding a decimal to a binary64 value is left to the library: the
    development takes the function as a parameter and holds for each one;
    [ParseFloat64] below is the library's. *)
Class FloatParser := ParseFloat : string -> float * option error.

(** *** [strconv.ParseFloat]

    The conversion of a string to a binary64 value. The repository calls
    it and does not contain it: the definitions down to [ParseFloat64]
    model it as Go's standard library does it ([atof.go]): the special
    values first, then a decimal or hexadecimal number, rounded to the
    nearest binary64 value, ties to even. The library keeps the first 19
    digits of the mantissa in a machine word and falls back to a decimal
    of up to 800 digits when they do not decide the rounding; the model
    keeps every digit, which gives the same correctly rounded result. The
    rounding is that of the Standard Library's [SpecFloat]. *)

(** Modelled from the spec: [lower(c)]: [c | ('x' ^ 'X')], the byte with bit 5
    set. *)
Definition lower (c : ascii) : ascii := ascii_of_N (N.lor (N_of_ascii c) 32).

(** Modelled from the spec: a letter [a] to [f], in either case. *)
Definition isHexLetter (c : ascii) : bool :=
  (97 <=? Z.of_N (N_of_ascii (lower c))) && (Z.of_N (N_of_ascii (lower c)) <=? 102).

(** Modelled from the spec: [lower(c) - 'a' + 10] *)
Definition hexLetterVal (c : ascii) : Z := Z.of_N (N_of_ascii (lower c)) - 97 + 10.

(** Modelled from the spec: [if 'A' <= c && c <= 'Z' { c += 'a' - 'A' }] *)
Definition toLowerAZ (c : ascii) : ascii :=
  if (65 <=? Z.of_N (N_of_ascii c)) && (Z.of_N (N_of_ascii c) <=? 90)
  then ascii_of_N (N_of_ascii c + 32) else c.

(** Modelled from the spec: the length of the common prefix of [s] and the
    lower-case [prefix], the letter case of [s] ignored. *)
Fixpoint commonPrefixLenIgnoreCase (s prefix : string) : nat :=
  match s, prefix with
  | String c s', String p prefix' =>
      if decide (toLowerAZ c = p) then S (commonPrefixLenIgnoreCase s' prefix') else 0%nat
  | _, _ => 0%nat
  end.

(** Modelled from the spec: the bytes of [s] that spell [inf] or [infinity]:
    anything between the two counts as [inf]. *)
Definition infinityLen (s : string) : option nat :=
  let n := commonPrefixLenIgnoreCase s "infinity" in
  let n := if ((3 <? n) && (n <? 8))%nat then 3%nat else n in
  if decide (n = 3%nat ∨ n = 8%nat) then Some n else None.

(** Modelled from the spec: [special(s)]: the value of a prefix of [s] that
    spells an infinity, with or without a sign, or a NaN, and the length of
    that prefix. *)
Definition special (s : string) : option (float * nat) :=
  match s with
  | EmptyString => None
  | String c rest =>
      if decide (c = "+"%char ∨ c = "-"%char) then
        n ← infinityLen rest;
        Some (if decide (c = "-"%char) then neg_infinity else infinity, S n)
      else if decide (c = "i"%char ∨ c = "I"%char) then
        n ← infinityLen s; Some (infinity, n)
      else if decide (c = "n"%char ∨ c = "N"%char) then
        if decide (commonPrefixLenIgnoreCase s "nan" = 3%nat) then Some (nan, 3%nat) else None
      else None
  end.

(** Modelled from the spec: the variables of the digit loop of [readFloat]:
    [nd] counts the digits after the leading zeros, [dp] is the position of
    the point among them. *)
Record floatDigits := {
  sawdot : bool; sawdigits : bool; nd : Z; dp : Z; mantissa : Z; underscores : bool
}.

(** Modelled from the spec: the digit loop of [readFloat], on the input left:
    underscores, one point, decimal digits, and the letters [a] to [f] after a
    [0x]. *)
Fixpoint readDigits (hex : bool) (st : floatDigits) (s : string) : floatDigits * string :=
  match s with
  | EmptyString => (st, s)
  | String c rest =>
      if decide (c = "_"%char) then
        readDigits hex {| sawdot := sawdot st; sawdigits := sawdigits st; nd := nd st;
                          dp := dp st; mantissa := mantissa st; underscores := true |} rest
      else if decide (c = "."%char) then
        if sawdot st then (st, s)
        else readDigits hex {| sawdot := true; sawdigits := sawdigits st; nd := nd st;
                               dp := nd st; mantissa := mantissa st;
                               underscores := underscores st |} rest
      else if isDigit c then
        if bool_decide (c = "0"%char) && (nd st =? 0) then
          readDigits hex {| sawdot := sawdot st; sawdigits := true; nd := nd st;
                            dp := dp st - 1; mantissa := mantissa st;
                            underscores := underscores st |} rest
        else
          readDigits hex {| sawdot := sawdot st; sawdigits := true; nd := nd st + 1;
                            dp := dp st;
                            mantissa := mantissa st * (if hex then 16 else 10) + digitVal c;
                            underscores := underscores st |} rest
      else if hex && isHexLetter c then
        readDigits hex {| sawdot := sawdot st; sawdigits := true; nd := nd st + 1;
                          dp := dp st; mantissa := mantissa st * 16 + hexLetterVal c;
                          underscores := underscores st |} rest
      else (st, s)
  end.

(** Modelled from the spec: the digits of the exponent: [if e < 10000 { e =
    e*10 + int(s[i]) - '0' }], so that an exponent of six digits or more only
    moves the point by a lot. *)
Fixpoint readExponent (e : Z) (us : bool) (s : string) : Z * bool * string :=
  match s with
  | EmptyString => (e, us, s)
  | String c rest =>
      if isDigit c then readExponent (if e <? 10000 then e * 10 + digitVal c else e) us rest
      else if decide (c = "_"%char) then readExponent e true rest
      else (e, us, s)
  end.

(** Modelled from the spec: what [underscoreOK] saw last: the beginning, a
    digit (or the base prefix), an underscore, anything else. *)
Inductive sawKind := sawStart | sawDigit | sawUnderscore | sawOther.

(** Modelled from the spec: the loop of [underscoreOK]: an underscore must
    follow a digit and be followed by one. *)
Fixpoint underscoreLoop (hex : bool) (saw : sawKind) (s : string) : bool :=
  match s with
  | EmptyString => match saw with sawUnderscore => false | _ => true end
  | String c rest =>
      if isDigit c || (hex && isHexLetter c) then underscoreLoop hex sawDigit rest
      else if decide (c = "_"%char) then
        match saw with
        | sawDigit => underscoreLoop hex sawUnderscore rest
        | _ => false
        end
      else
        match saw with
        | sawUnderscore => false
        | _ => underscoreLoop hex sawOther rest
        end
  end.

(** Modelled from the spec: the input after its optional sign. *)
Definition dropSign (s : string) : string :=
  match s with
  | String c rest => if decide (c = "+"%char ∨ c = "-"%char) then rest else s
  | EmptyString => s
  end.

(** Modelled from the spec: [underscoreOK(s)]: every underscore separates two
    digits, the base prefix counting as a digit. *)
Definition underscoreOK (s : string) : bool :=
  let s := dropSign s in
  match s with
  | String d (String x rest) =>
      if decide (d = "0"%char
                 ∧ (lower x = "b"%char ∨ lower x = "o"%char ∨ lower x = "x"%char))
      then underscoreLoop (bool_decide (lower x = "x"%char)) sawDigit rest
      else underscoreLoop false sawStart s
  | _ => underscoreLoop false sawStart s
  end.

(** Modelled from the spec: the base prefix of [readFloat]: [0x] or [0X] with
    a byte after it. *)
Definition hexPrefix (s : string) : bool * string :=
  match s with
  | String d (String x (String c rest)) =>
      if decide (d = "0"%char ∧ lower x = "x"%char) then (true, String c rest) else (false, s)
  | _ => (false, s)
  end.

(** Modelled from the spec: the optional exponent of [readFloat]: the shift of
    the point, the underscore flag and the input left; [None] where
    [readFloat] returns without [ok]. A hexadecimal mantissa must have an
    exponent. *)
Definition readExp (hex us : bool) (s : string) : option (Z * bool * string) :=
  match s with
  | String c r =>
      if decide (lower c = (if hex then "p" else "e")%char) then
        match r with
        | EmptyString => None
        | String c1 _ =>
            let esign := if decide (c1 = "-"%char) then -1 else 1 in
            match dropSign r with
            | EmptyString => None
            | String c2 r2 =>
                if isDigit c2 then
                  let '(e, us, s4) := readExponent 0 us (String c2 r2) in
                  Some (e * esign, us, s4)
                else None
            end
        end
      else if hex then None
      else Some (0, us, s)
  | EmptyString => if hex then None else Some (0, us, s)
  end.

(** Modelled from the spec: what [readFloat] reads: the number is [± mantissa
    * 10 ^ exp], or [± mantissa * 2 ^ exp] when [hex]. *)
Record floatNumber := { fn_neg : bool; fn_hex : bool; fn_mantissa : Z; fn_exp : Z }.

(** Modelled from the spec: [readFloat(s)], with the input left in place of
    the index [i]; [None] where the library returns without [ok]. *)
Definition readFloat (s : string) : option (floatNumber * string) :=
  match s with
  | EmptyString => None
  | String c0 _ =>
      let neg := bool_decide (c0 = "-"%char) in
      let '(hex, s2) := hexPrefix (dropSign s) in
      let '(st, s3) :=
        readDigits hex {| sawdot := false; sawdigits := false; nd := 0; dp := 0;
                          mantissa := 0; underscores := false |} s2 in
      if negb (sawdigits st) then None
      else
        let dp := if sawdot st then dp st else nd st in
        let dp := if hex then dp * 4 else dp in
        let ndMant := if hex then nd st * 4 else nd st in
        match readExp hex (underscores st) s3 with
        | None => None
        | Some (e, us, s4) =>
            let exp := if decide (mantissa st = 0) then 0 else dp + e - ndMant in
            if us && negb (underscoreOK (substring 0 (String.length s - String.length s4) s))
            then None
            else Some ({| fn_neg := neg; fn_hex := hex; fn_mantissa := mantissa st;
                          fn_exp := exp |}, s4)
        end
  end.

(** Modelled from the spec: the binary64 value nearest to the number read,
    ties to even; an infinity when the number is beyond the largest finite
    value. *)
Definition float64Bits (num : floatNumber) : spec_float :=
  match fn_mantissa num with
  | Zpos m =>
      if fn_hex num then
        binary_normalize prec emax (if fn_neg num then Zneg m else Zpos m) (fn_exp num) false
      else if 0 <=? fn_exp num then
        binary_normalize prec emax
          ((if fn_neg num then Zneg m else Zpos m) * 10 ^ fn_exp num) 0 false
      else
        SFdiv prec emax (S754_finite (fn_neg num) m 0)
          (S754_finite false (Z.to_pos (10 ^ (- fn_exp num))) 0)
  | _ => S754_zero (fn_neg num)
  end.

(** Modelled from the spec: [atof64(s)], with the input left in place of the
    count [n]. *)
Definition atof64 (s : string) : float * string * option error :=
  match special s with
  | Some (val, n) => (val, substring n (String.length s - n) s, None)
  | None =>
      match readFloat s with
      | None => (0%float, s, Some (syntaxError "ParseFloat" s))
      | Some (num, rest) =>
          let b := float64Bits num in
          (SF2Prim b, rest,
           match b with
           | S754_infinity _ => Some (rangeError "ParseFloat" s)
           | _ => None
           end)
      end
  end.

(** Modelled from the spec: [strconv.ParseFloat(s, 64)] of Go's standard
    library, which the repository calls and does not contain; the spec's
    "64-bit floating-point parse", as the library does it. The whole input
    must be a number or a special value; the failure is a [*NumError] for
    the whole input, [ErrSyntax] or, for a number beyond the binary64 range,
    [ErrRange]. *)
Definition ParseFloat64 (s : string) : float * option error :=
  let '(f, rest, err) := atof64 s in
  if decide (rest = "") then (f, err) else (0%float, Some (syntaxError "ParseFloat" s)).

(** The model of the library's parser as a [FloatParser]. *)
Definition strconvFloats : FloatParser := ParseFloat64.

(** *** Standard decimal and exponential notation

    The notation the specification names for a float parameter: an
    optional sign, digits, an optional point with digits after it, and an
    optional exponent, [e] or [E] with an optional sign and digits. *)















End Strconv.

(** ** Package config *)
Module Config.
Import Models.

(** What [toml.DecodeFile] fills in. *)
Record Config := { Metrics : list Metric }.

(** The loop of [validateMetrics], on the [names] seen so far. A missing key
    of a [map[string]bool] reads [false]. *)
Fixpoint validateLoop (names : gmap string bool) (metrics : list Metric) : option error :=
  match metrics with
  | [] => None
  | metric :: rest =>
      if default false (names !! Name metric) then
        Some (Errorf "duplicate metric name: %s" [Name metric] None)
      else
        let names := <[Name metric := true]> names in
        match Validate metric with
        | Some err => Some (Errorf "invalid metric %s: %w" [Name metric] (Some err))
        | None => validateLoop names rest
        end
  end.

Definition validateMetrics (metrics : list Metric) : option error :=
  if decide (length metrics = 0) then
    Some (Errorf "no metrics defined in config" [] None)
  else validateLoop ∅ metrics.

(** [LoadConfig], with the TOML decoder (an external library) as the
    function [DecodeFile] from a path to the decoded [Config] or an error. *)
Definition LoadConfig (DecodeFile : string -> Config * option error) (path : string)
  : list Metric * option error :=
  let '(config, err) := DecodeFile path in
  match err with
  | Some err => ([], Some (Errorf "failed to parse config file: %w" [] (Some err)))
  | None =>
      match validateMetrics (Metrics config) with
      | Some err => ([], Some err)
      | None => (Metrics config, None)
      end
  end.

(** A name is recorded in [names]. *)
Definition seen (names : gmap string bool) (name : string) : Prop :=
  default false (names !! name) = true.

(** Two definitions of the sequence, at different places, share a name. *)
Definition sharesName (metrics : list Metric) : Prop :=
  ∃ i j a b, i ≠ j ∧ metrics !! i = Some a ∧ metrics !! j = Some b ∧ Name a = Name b.

End Config.

(** ** Package database/sql (Go's standard library)

    The part of its contract that the repository is written against: a query
    yields a result set ([*sql.Rows]) or an error; the result set has column
    names, rows that [Next] steps through, the error that ended the
    iteration, if any, and the error of [Close]. *)
Module Sql.

Definition ErrNoRows : error := errVar "sql.ErrNoRows" "sql: no rows in result set".

(** [err == sql.ErrNoRows] *)
Definition isErrNoRows (err : error) : bool :=
  match err with
  | errVar name _ => bool_decide (name = "sql.ErrNoRows")
  | _ => false
  end.

(** [*sql.Rows]: [Columns()], the rows that [Next] and [Scan] yield one by
    one, [Err()] once [Next] has returned false, and the error of [Close()]. *)
Record Rows := {
  Columns : list string * option error;
  data : list (list any);
  Err : option error;
  CloseErr : option error
}.

(** [rows.Scan(dest...)] of the current row [vals] into [n] destinations of
    type [*interface{}]: the driver's value is stored as it is; the only
    failure is a wrong number of destinations, and its error gives the
    number of columns of the row and the number of destinations, in
    decimal. *)
Definition Rows_Scan (n : nat) (vals : list any) : list any * option error :=
  if decide (length vals = n) then (vals, None)
  else (replicate n nil_any,
        Some (Errorf "sql: expected %d destination arguments in Scan, not %d"
                [pretty (length vals); pretty n] None)).

(** A database handle over a store of type [S]: [db.QueryContext] and
    [db.Close]. *)
Record DB (S : Type) := {
  QueryContext : Context -> string -> list any -> S -> (Rows * option error) * S;
  DB_Close : S -> option error * S
}.
Arguments QueryContext {S}.
Arguments DB_Close {S}.

(** [db.QueryRowContext(ctx, query, args...).Scan(&value)]: the error of the
    query, else [ErrNoRows] when [Next] finds no row (or the error that ended
    the iteration), else the first row scanned into the one destination, and
    the result set closed. *)
Definition Row_Scan (r : Rows * option error) : any * option error :=
  let '(rows, err) := r in
  match err with
  | Some err => (nil_any, Some err)
  | None =>
      match data rows with
      | [] =>
          match Err rows with
          | Some err => (nil_any, Some err)
          | None => (nil_any, Some ErrNoRows)
          end
      | vals :: _ =>
          let '(values, err) := Rows_Scan 1 vals in
          match err with
          | Some err => (nil_any, Some err)
          | None => (values !!! 0%nat, CloseErr rows)
          end
      end
  end.

End Sql.

(** ** Package repository *)
Module Repository.
Import Sql.

(** [type Repository interface], over a store of type [S] that a call may
    change. *)
Record Repository (S : Type) := {
  QuerySingleValue : Context -> string -> list any -> S -> (any * option error) * S;
  QueryMultiRow :
    Context -> string -> list any -> S -> (list (gmap string any) * option error) * S;
  Close : S -> option error * S
}.
Arguments QuerySingleValue {S}.
Arguments QueryMultiRow {S}.
Arguments Close {S}.

Definition SQLite_QuerySingleValue {S} (db : DB S)
    (ctx : Context) (query : string) (args : list any) (s : S)
  : (any * option error) * S :=
  let '(r, s) := QueryContext db ctx query args s in
  let '(value, err) := Row_Scan r in
  match err with
  | Some err =>
      if isErrNoRows err then ((nil_any, Some (Errorf "no rows returned" [] None)), s)
      else ((nil_any, Some (Errorf "query failed: %w" [] (Some err))), s)
  | None => ((value, None), s)
  end.

(** [for i, col := range columns { row[col] = values[i] }], from index [i]. *)
Fixpoint fillRow (i : nat) (columns : list string) (values : list any)
    (row : gmap string any) : gmap string any :=
  match columns with
  | [] => row
  | col :: rest => fillRow (S i) rest values (<[col := values !!! i]> row)
  end.

(** [for rows.Next() { ... }], on the rows still to come. *)
Fixpoint scanRows (columns : list string) (data : list (list any))
    (results : list (gmap string any)) : list (gmap string any) * option error :=
  match data with
  | [] => (results, None)
  | vals :: rest =>
      let '(values, err) := Rows_Scan (length columns) vals in
      match err with
      | Some err => ([], Some (Errorf "failed to scan row: %w" [] (Some err)))
      | None =>
          let row := fillRow 0 columns values ∅ in
          scanRows columns rest (results ++ [row])
      end
  end.

Definition SQLite_QueryMultiRow {S} (db : DB S)
    (ctx : Context) (query : string) (args : list any) (s : S)
  : (list (gmap string any) * option error) * S :=
  let '((rows, err), s) := QueryContext db ctx query args s in
  match err with
  | Some err => (([], Some (Errorf "query failed: %w" [] (Some err))), s)
  | None =>
      let '(columns, err) := Columns rows in
      match err with
      | Some err => (([], Some (Errorf "failed to get columns: %w" [] (Some err))), s)
      | None =>
          let '(results, err) := scanRows columns (data rows) [] in
          match err with
          | Some err => (([], Some err), s)
          | None =>
              match Err rows with
              | Some err => (([], Some (Errorf "error iterating rows: %w" [] (Some err))), s)
              | None => ((results, None), s)
              end
          end
      end
  end.

Definition SQLiteRepository {S} (db : DB S) : Repository S :=
  {| QuerySingleValue := SQLite_QuerySingleValue db;
     QueryMultiRow := SQLite_QueryMultiRow db;
     Close := DB_Close db |}.

(** The reading of the columns of a result set by their names alone: in the
    mapping of each row, the name of a column whose value is NULL has the
    nil value. *)
Definition nullColumnsAreNull (rows : Rows) (results : list (gmap string any)) : Prop :=
  ∀ r row vals i col,
    results !! r = Some row →
    data rows !! r = Some vals →
    (Columns rows).1 !! i = Some col →
    vals !! i = Some nil_any →
    row !! col = Some nil_any.

End Repository.

(** ** Package service *)
Module Service.
Import Models Strconv Repository.

Definition convertParamValue `{FloatParser} (value : string) (paramType : ParamType)
  : any * option error :=
  if decide (paramType = ParamTypeString) then (str value, None)
  else if decide (paramType = ParamTypeInt) then
    let '(n, err) := ParseInt value in
    match err with
    | Some err => (nil_any, Some (Errorf "invalid integer value %q: %w" [value] (Some err)))
    | None => (int64 n, None)
    end
  else if decide (paramType = ParamTypeFloat) then
    let '(f, err) := ParseFloat value in
    match err with
    | Some err => (nil_any, Some (Errorf "invalid float value %q: %w" [value] (Some err)))
    | None => (float64 f, None)
    end
  else (nil_any, Some (Errorf "unsupported parameter type: %s" [paramType] None)).


Record MetricService (S : Type) := {
  repo : Repository S;
  metrics : gmap string Metric
}.
Arguments repo {S}.
Arguments metrics {S}.

Definition NewMetricService {S} (repo : Repository S) (metricsList : list Metric)
  : MetricService S :=
  let metricsMap :=
    foldl (fun metricsMap m => <[Name m := m]> metricsMap) (∅ : gmap string Metric) metricsList in
  {| repo := repo; metrics := metricsMap |}.

(** The loop of [prepareParams] over [metric.Params], from index [i], on the
    [args] slice filled so far. *)
Fixpoint prepareLoop `{FloatParser} (metric : Metric) (params : gmap string string)
    (i : nat) (defs : list ParamDefinition) (args : list any) : list any * option error :=
  match defs with
  | [] => (args, None)
  | paramDef :: rest =>
      let value := default "" (params !! pd_Name paramDef) in
      let exists_ := bool_decide (is_Some (params !! pd_Name paramDef)) in
      if pd_Required paramDef && negb exists_ then
        ([], Some (Errorf "metric %q: required parameter %q is missing"
                     [Name metric; pd_Name paramDef] None))
      else
        let value := if negb exists_ then "" else value in
        let '(convertedValue, err) := convertParamValue value (pd_Type paramDef) in
        match err with
        | Some err =>
            ([], Some (Errorf "metric %q: parameter %q: %w"
                         [Name metric; pd_Name paramDef] (Some err)))
        | None => prepareLoop metric params (S i) rest (<[i := convertedValue]> args)
        end
  end.

Definition prepareParams `{FloatParser} (metric : Metric) (params : gmap string string)
  : list any * option error :=
  if decide (length (Params metric) = 0) then ([], None)
  else
    let args := replicate (length (Params metric)) nil_any in
    prepareLoop metric params 0 (Params metric) args.

(** The calls made through the [Repository] interface, in order: a record
    kept beside the store, which the code does not read. *)
Inductive Call : Type :=
| CallQuerySingleValue (ctx : Context) (query : string) (args : list any)
| CallQueryMultiRow (ctx : Context) (query : string) (args : list any).

Record World (S : Type) := {
  store : S;
  calls : list Call
}.
Arguments store {S}.
Arguments calls {S}.

Definition GetMetric `{FloatParser} {S} (ms : MetricService S)
    (ctx : Context) (name : string) (params : gmap string string) (w : World S)
  : (list MetricResult * option error) * World S :=
  match metrics ms !! name with
  | None => (([], Some (Errorf "metric %q not found" [name] None)), w)
  | Some metric =>
      let '(args, err) := prepareParams metric params in
      match err with
      | Some err => (([], Some err), w)
      | None =>
          if MultiRow metric then
            let '((rows, err), s) := QueryMultiRow (repo ms) ctx (Query metric) args (store w) in
            let w := {| store := s;
                        calls := calls w ++ [CallQueryMultiRow ctx (Query metric) args] |} in
            match err with
            | Some err => (([], Some (Errorf "metric %q failed: %w" [Name metric] (Some err))), w)
            | None => (([ {| mr_Name := Name metric; mr_Value := RowSet rows |} ], None), w)
            end
          else
            let '((result, err), s) :=
              QuerySingleValue (repo ms) ctx (Query metric) args (store w) in
            let w := {| store := s;
                        calls := calls w ++ [CallQuerySingleValue ctx (Query metric) args] |} in
            match err with
            | Some err => (([], Some (Errorf "metric %q failed: %w" [Name metric] (Some err))), w)
            | None => (([ {| mr_Name := Name metric; mr_Value := Scalar result |} ], None), w)
            end
      end
  end.

(** *** The goroutines of [GetMetrics]

    [GetMetrics] starts one goroutine per index of [names]. Goroutine [i]
    does two things that other goroutines can observe: it calls [GetMetric]
    (which reads the group's context and calls the repository at most
    once), and later it returns into the [errgroup], after storing its
    result in [results[i]]. A schedule is the order of these events over all
    the goroutines; the code fixes none. *)
Inductive Event : Type :=
| Run (i : nat)
| Return (i : nat).

Record Group (S : Type) := {
  world : World S;
  outcome : gmap nat (list MetricResult * option error);
  returned : gset nat;
  results : list MetricResult;
  egErr : option error
}.
Arguments world {S}.
Arguments outcome {S}.
Arguments returned {S}.
Arguments results {S}.
Arguments egErr {S}.

(** [egCtx]: cancelled with its parent, and by the first goroutine that
    returns an error. *)
Definition egCtx {S} (ctx : Context) (g : Group S) : Context :=
  {| Done := Done ctx || match egErr g with Some _ => true | None => false end |}.

Definition step `{FloatParser} {S} (ms : MetricService S) (ctx : Context)
    (names : list string) (params : gmap string string) (g : Group S) (ev : Event)
  : option (Group S) :=
  match ev with
  | Run i =>
      match names !! i, outcome g !! i with
      | Some name, None =>
          let '(r, w) := GetMetric ms (egCtx ctx g) name params (world g) in
          Some {| world := w; outcome := <[i := r]> (outcome g); returned := returned g;
                  results := results g; egErr := egErr g |}
      | _, _ => None
      end
  | Return i =>
      match outcome g !! i with
      | Some (metricResults, err) =>
          if bool_decide (i ∈ returned g) then None
          else
            match err with
            | Some err =>
                Some {| world := world g; outcome := outcome g;
                        returned := {[i]} ∪ returned g; results := results g;
                        egErr := match egErr g with Some first => Some first | None => Some err end |}
            | None =>
                Some {| world := world g; outcome := outcome g;
                        returned := {[i]} ∪ returned g;
                        results := match metricResults with
                                   | r :: _ => <[i := r]> (results g)
                                   | [] => results g
                                   end;
                        egErr := egErr g |}
            end
      | None => None
      end
  end.

Fixpoint runGroup `{FloatParser} {S} (ms : MetricService S) (ctx : Context)
    (names : list string) (params : gmap string string) (g : Group S) (sched : list Event)
  : option (Group S) :=
  match sched with
  | [] => Some g
  | ev :: rest =>
      match step ms ctx names params g ev with
      | Some g => runGroup ms ctx names params g rest
      | None => None
      end
  end.

(** The group once every goroutine has returned, which is what [eg.Wait()]
    waits for; [None] when [sched] is not a schedule of the goroutines of
    [names] (an event out of turn, or a goroutine that is left). *)
Definition goroutines `{FloatParser} {S} (ms : MetricService S) (ctx : Context)
    (names : list string) (params : gmap string string) (w : World S) (sched : list Event)
  : option (Group S) :=
  let results := replicate (length names) MetricResult_zero in
  let g := {| world := w; outcome := ∅; returned := ∅; results := results; egErr := None |} in
  match runGroup ms ctx names params g sched with
  | Some g =>
      if forallb (fun i => bool_decide (i ∈ returned g)) (seq 0 (length names))
      then Some g else None
  | None => None
  end.

Definition GetMetrics `{FloatParser} {S} (ms : MetricService S) (ctx : Context)
    (names : list string) (params : gmap string string) (w : World S) (sched : list Event)
  : option ((list MetricResult * option error) * World S) :=
  match goroutines ms ctx names params w sched with
  | Some g =>
      match egErr g with
      | Some err => Some (([], Some err), world g)
      | None => Some ((results g, None), world g)
      end
  | None => None
  end.

(** Each metric is registered under its own name. *)
Definition named (metricsMap : gmap string Metric) : Prop :=
  ∀ name metric, metricsMap !! name = Some metric → Name metric = name.

(** What holds of the group of goroutines at every point of a schedule. *)
Record GroupInv {S : Type} (names : list string) (g : Group S) : Prop := {
  inv_length : length (results g) = length names;
  inv_returned : ∀ i, i ∈ returned g → is_Some (outcome g !! i);
  inv_outcome : ∀ i rs err, outcome g !! i = Some (rs, err) →
    ∃ name, names !! i = Some name
            ∧ match err with
              | None => ∃ v, rs = [ {| mr_Name := name; mr_Value := v |} ]
              | Some _ => rs = []
              end;
  inv_slot : ∀ i r, i ∈ returned g → outcome g !! i = Some ([r], None) →
    results g !! i = Some r;
  inv_no_error : egErr g = None →
    ∀ i rs err, i ∈ returned g → outcome g !! i = Some (rs, err) → err = None;
  inv_error : ∀ e, egErr g = Some e →
    ∃ i rs, i ∈ returned g ∧ outcome g !! i = Some (rs, Some e)
}.

(** The schedule in which the goroutines run one after the other, in the
    order of [names]. *)
Definition inOrder (n : nat) : list Event :=
  flat_map (fun i => [Run i; Return i]) (seq 0 n).

(** The value that [prepareParams] converts for a parameter definition: the
    input of its name, or the empty string when there is none. *)
Definition paramInput (params : gmap string string) (paramDef : ParamDefinition) : string :=
  default "" (params !! pd_Name paramDef).

(** A parameter definition that [prepareParams] gets past: its input is
    there if it is required, and converts to its type. *)
Definition paramReady `{FloatParser} (params : gmap string string)
    (paramDef : ParamDefinition) : Prop :=
  (pd_Required paramDef = true → is_Some (params !! pd_Name paramDef))
  ∧ (convertParamValue (paramInput params paramDef) (pd_Type paramDef)).2 = None.

(** The context that a call of the repository was made with. *)
Definition callCtx (c : Call) : Context :=
  match c with
  | CallQuerySingleValue ctx _ _ => ctx
  | CallQueryMultiRow ctx _ _ => ctx
  end.

(** The query text that a call of the repository was made with. *)
Definition callQuery (c : Call) : string :=
  match c with
  | CallQuerySingleValue _ query _ => query
  | CallQueryMultiRow _ query _ => query
  end.

(** The group before any goroutine has done anything. *)
Definition newGroup {S} (names : list string) (w : World S) : Group S :=
  {| world := w; outcome := ∅; returned := ∅;
     results := replicate (length names) MetricResult_zero; egErr := None |}.

(** What the count of the calls needs of the group: the calls added since
    the world [w], at most one per goroutine that ran and one per goroutine
    that ran without an error. *)
Record CallsInv {S : Type} (names : list string) (w : World S) (g : Group S) : Prop := {
  ci_calls : ∃ tail, calls (world g) = (calls w ++ tail)%list
                     ∧ (length tail ≤ size (outcome g))%nat
                     ∧ (map_Forall (fun _ r => r.2 = None) (outcome g) →
                        length tail = size (outcome g));
  ci_bound : ∀ i, is_Some (outcome g !! i) → (i < length names)%nat;
  ci_returned : ∀ i, i ∈ returned g → is_Some (outcome g !! i);
  ci_no_error : egErr g = None →
    ∀ i r, i ∈ returned g → outcome g !! i = Some r → r.2 = None
}.

(** [for name := range ms.metrics] visits the entries of the map once each,
    in an order that Go leaves open: [order] is such an order. *)
Definition rangeOrder {S} (ms : MetricService S) (order : list (string * Metric)) : Prop :=
  order ≡ₚ map_to_list (metrics ms).

(** [GetMetricNames], on the order in which the [range] visits the map. *)
Definition GetMetricNames {S} (ms : MetricService S) (order : list (string * Metric))
  : list string :=
  foldl (fun names entry => names ++ [entry.1])%list [] order.

End Service.

(** ** Example data *)
Module Examples.
Import Models Sql Repository Service.

Definition total_count : Metric :=
  {| Name := "total_count"; Query := "SELECT COUNT(*) FROM t"; MultiRow := false;
     Params := [] |}.

Definition rows_by_id : Metric :=
  {| Name := "rows_by_id"; Query := "SELECT v FROM t WHERE id = ?"; MultiRow := true;
     Params := [ {| pd_Name := "id"; pd_Type := ParamTypeInt; pd_Required := true |} ] |}.

Definition catalog : list Metric := [total_count; rows_by_id].

(** A metric with an optional string parameter, and one with an optional
    integer parameter. *)
Definition users_by_status : Metric :=
  {| Name := "users_by_status"; Query := "SELECT COUNT(*) FROM users WHERE status = ?";
     MultiRow := false;
     Params := [ {| pd_Name := "status"; pd_Type := ParamTypeString; pd_Required := false |} ] |}.

Definition users_limited : Metric :=
  {| Name := "users_limited"; Query := "SELECT id FROM users LIMIT ?"; MultiRow := true;
     Params := [ {| pd_Name := "limit"; pd_Type := ParamTypeInt; pd_Required := false |} ] |}.

(** The three scalar metrics of the service's concurrency test. *)
Definition active_users : Metric :=
  {| Name := "active_users"; Query := "SELECT COUNT(*) FROM users"; MultiRow := false;
     Params := [] |}.

Definition signups : Metric :=
  {| Name := "signups"; Query := "SELECT COUNT(*) FROM signups"; MultiRow := false;
     Params := [] |}.

Definition revenue : Metric :=
  {| Name := "revenue"; Query := "SELECT SUM(amount) FROM transactions"; MultiRow := false;
     Params := [] |}.

(** The test double [mockRepository]: fixed answers, and a store that counts
    the calls ([queryCalls]). *)
Definition mockRepository (singleValueResult : any) (singleValueErr : option error)
    (multiRowResult : list (gmap string any)) (multiRowErr : option error)
  : Repository nat :=
  {| QuerySingleValue := fun _ _ _ queryCalls =>
       ((singleValueResult, singleValueErr), queryCalls + 1);
     QueryMultiRow := fun _ _ _ queryCalls =>
       ((multiRowResult, multiRowErr), queryCalls + 1);
     Close := fun queryCalls => (None, queryCalls) |}.

Definition errQueryFailed : error := errVar "service.errQueryFailed" "query failed".

(** The test double [testRepositoryWithFailure]: single-value queries fail
    from call number [successCount + 1] on. *)
Definition testRepositoryWithFailure (successCount : nat) : Repository nat :=
  {| QuerySingleValue := fun _ _ _ count =>
       let count := count + 1 in
       if (successCount <? count)%nat then ((nil_any, Some errQueryFailed), count)
       else ((int64 100, None), count);
     QueryMultiRow := fun _ _ _ count => (([], None), count);
     Close := fun count => (None, count) |}.

(** A float parser that accepts no input, for the examples, whose metrics
    declare no float parameter. *)
Definition noFloats : Strconv.FloatParser :=
  fun s => (0%float, Some (Strconv.syntaxError "ParseFloat" s)).

(** A database handle that answers every query with the result set [rows]. *)
Definition constDB (rows : Rows) : DB unit :=
  {| QueryContext := fun _ _ _ s => ((rows, None), s);
     DB_Close := fun s => (None, s) |}.

(** [SELECT name FROM test_data WHERE id = 999]: no row. *)
Definition noMatch : Rows :=
  {| Columns := (["name"], None); data := []; Err := None; CloseErr := None |}.

(** [SELECT id, optional FROM test_data ORDER BY id], on the rows of the
    repository's tests. *)
Definition withNull : Rows :=
  {| Columns := (["id"; "optional"], None);
     data := [ [int64 1; str "value1"]; [int64 2; nil_any]; [int64 3; str "value3"] ];
     Err := None; CloseErr := None |}.

(** [SELECT NULL AS x, 1 AS x]: two columns of one name. *)
Definition twoColumnsOneName : Rows :=
  {| Columns := (["x"; "x"], None); data := [ [nil_any; int64 1] ];
     Err := None; CloseErr := None |}.

(** The metric of [TestMetric_Validate] whose parameter has no name. *)
Definition unnamed_param : Metric :=
  {| Name := "test"; Query := "SELECT 1"; MultiRow := false;
     Params := [ {| pd_Name := ""; pd_Type := ParamTypeString; pd_Required := true |} ] |}.

(** The two definitions of one name of [TestLoadConfig]. *)
Definition duplicates : list Metric :=
  [ {| Name := "duplicate"; Query := "SELECT 1"; MultiRow := false; Params := [] |};
    {| Name := "duplicate"; Query := "SELECT 2"; MultiRow := false; Params := [] |} ].

(** A result set whose iteration ends with an error after one row. *)
Definition interrupted : Rows :=
  {| Columns := (["name"], None); data := [ [str "Alice"] ];
     Err := Some (errors_New "interrupted"); CloseErr := None |}.

(** A group of two goroutines of which one has returned an error already. *)
Definition failedGroup : Group nat :=
  {| world := {| store := 0; calls := [] |}; outcome := ∅; returned := ∅;
     results := [MetricResult_zero; MetricResult_zero];
     egErr := Some errQueryFailed |}.

(** A world in which no call has been made. *)
Definition freshWorld : World nat := {| store := 0; calls := [] |}.

(** The metric service of the concurrency test, over a repository. *)
Definition testService (repo : Repository nat) : MetricService nat :=
  NewMetricService repo [active_users; signups; revenue].

End Examples.

(** * Properties

    The sections below follow the packages: the catalog, the repository, the
    parameters, single metrics, batches; then the properties at the data of
    the repository's tests. *)

(** ** The catalog: [validateMetrics] and [LoadConfig] *)
Section CatalogProperties.
Import Models Config.

Lemma seen_insert names name name' :
  seen (<[name := true]> names) name' ↔ name = name' ∨ seen names name'.
Proof.
  unfold seen. destruct (decide (name = name')) as [->|Hne].
  - rewrite lookup_insert_eq. simpl. tauto.
  - rewrite lookup_insert_ne by done. split; [tauto|]. intros [?|?]; [done|tauto].
Qed.

Lemma not_seen_empty name : ¬ seen ∅ name.
Proof. unfold seen. rewrite lookup_empty. simpl. discriminate. Qed.

(** The loop accepts exactly the sequences of valid definitions whose names
    are pairwise distinct and not seen before. *)
Lemma validateLoop_None names metrics :
  validateLoop names metrics = None ↔
    Forall (fun m => Validate m = None) metrics
    ∧ NoDup (Name <$> metrics)
    ∧ Forall (fun m => ¬ seen names (Name m)) metrics.
Proof.
  revert names. induction metrics as [|m rest IH]; intros names; simpl.
  - split; [intros _|done]. repeat split; constructor.
  - destruct (default false (names !! Name m)) eqn:Hseen.
    + split; [discriminate|]. intros (_ & _ & Hfresh).
      apply Forall_cons_1 in Hfresh as [Hm _]. by destruct Hm.
    + destruct (Validate m) eqn:Hvalid.
      * split; [discriminate|]. intros (Hall & _).
        apply Forall_cons_1 in Hall as [Hm _]. congruence.
      * rewrite IH. rewrite !Forall_cons, NoDup_cons.
        assert (Hnew : ¬ seen names (Name m)) by (unfold seen; congruence).
        split.
        -- intros (Hall & Hnd & Hfresh). repeat split; try done.
           ++ intros Hin. apply list_elem_of_fmap in Hin as (m' & Heq & Hin).
              rewrite Forall_forall in Hfresh. apply (Hfresh m' Hin).
              apply seen_insert. by left.
           ++ eapply Forall_impl; [exact Hfresh|]. intros m' Hm' Hs.
              apply Hm', seen_insert. by right.
        -- intros ((_ & Hall) & (Hnotin & Hnd) & (_ & Hfresh)). repeat split; try done.
           rewrite Forall_forall in Hfresh |- *. intros m' Hin Hs.
           apply seen_insert in Hs as [Heq|Hs]; [|by apply (Hfresh m' Hin)].
           apply Hnotin. rewrite Heq. apply list_elem_of_fmap. eauto.
Qed.

(** [validateMetrics] accepts exactly the non-empty sequences of valid
    definitions with pairwise distinct names. *)
Lemma validateMetrics_None metrics :
  validateMetrics metrics = None ↔
    metrics ≠ [] ∧ Forall (fun m => Validate m = None) metrics ∧ NoDup (Name <$> metrics).
Proof.
  unfold validateMetrics. destruct (decide (length metrics = 0)) as [Hlen|Hlen].
  - apply length_zero_iff_nil in Hlen. subst. split; [discriminate|]. by intros [? _].
  - rewrite validateLoop_None. split.
    + intros (Hall & Hnd & _). repeat split; try done. by intros ->.
    + intros (_ & Hall & Hnd). repeat split; try done.
      apply Forall_forall. intros m _. apply not_seen_empty.
Qed.

Lemma sharesName_not_NoDup metrics : sharesName metrics → ¬ NoDup (Name <$> metrics).
Proof.
  intros (i & j & a & b & Hij & Ha & Hb & Hab) Hnd.
  apply Hij. eapply NoDup_lookup; [exact Hnd| |].
  - rewrite list_lookup_fmap, Ha. reflexivity.
  - rewrite list_lookup_fmap, Hb. simpl. by rewrite Hab.
Qed.

(** C9. For the sequence of definitions that the decoder yields,
    [validateMetrics] fails, and [LoadConfig] with it, when the sequence is
    empty or has two definitions of the same name; when it is not empty, its
    definitions are valid each and their names pairwise distinct, both
    succeed and [LoadConfig] yields exactly the definitions supplied. *)
Theorem validateMetrics_catalog DecodeFile path (metrics : list Metric) :
  DecodeFile path = ({| Metrics := metrics |}, None) →
  (metrics = [] ∨ sharesName metrics →
     ∃ err, validateMetrics metrics = Some err
            ∧ LoadConfig DecodeFile path = ([], Some err))
  ∧ (metrics ≠ [] → Forall (fun m => Validate m = None) metrics → NoDup (Name <$> metrics) →
     validateMetrics metrics = None ∧ LoadConfig DecodeFile path = (metrics, None)).
Proof.
  intros Hdecode. unfold LoadConfig. rewrite Hdecode. simpl. split.
  - intros Hbad. destruct (validateMetrics metrics) as [err|] eqn:Hv; [by exists err|].
    apply validateMetrics_None in Hv as (Hne & _ & Hnd).
    destruct Hbad as [->|Hshare]; [done|]. by apply sharesName_not_NoDup in Hshare.
  - intros Hne Hall Hnd.
    assert (Hv : validateMetrics metrics = None) by by apply validateMetrics_None.
    by rewrite Hv.
Qed.

(** C9 at the empty sequence and at the catalog of the specification's scenario. *)
Lemma validateMetrics_catalog_witness :
  (∃ err, validateMetrics [] = Some err
          ∧ LoadConfig (fun _ => ({| Metrics := [] |}, None)) "metrics.toml" = ([], Some err))
  ∧ validateMetrics Examples.catalog = None
  ∧ LoadConfig (fun _ => ({| Metrics := Examples.catalog |}, None)) "metrics.toml"
    = (Examples.catalog, None).
Proof.
  split.
  - apply (validateMetrics_catalog (fun _ => ({| Metrics := [] |}, None)) "metrics.toml" []);
      [reflexivity | by left].
  - apply (validateMetrics_catalog
             (fun _ => ({| Metrics := Examples.catalog |}, None)) "metrics.toml" Examples.catalog).
    + reflexivity.
    + discriminate.
    + repeat constructor.
    + apply (bool_decide_unpack _). vm_compute. reflexivity.
Defined.

End CatalogProperties.

(** ** The SQLite repository *)
Section RepositoryProperties.
Import Sql Repository.
Context {S : Type} (db : DB S).

(** C6. A single-value query whose execution yields a result set with no
    row (and no error) makes [QuerySingleValue] fail with the error
    "no rows returned"; the value returned with it is nil, and the call is
    no success. *)
Theorem QuerySingleValue_no_rows ctx query args (s s' : S) (rows : Rows) :
  QueryContext db ctx query args s = ((rows, None), s') →
  data rows = [] →
  Err rows = None →
  QuerySingleValue (SQLiteRepository db) ctx query args s
  = ((nil_any, Some (Errorf "no rows returned" [] None)), s').
Proof.
  intros Hquery Hdata Herr. simpl. unfold SQLite_QuerySingleValue.
  rewrite Hquery. unfold Row_Scan. rewrite Hdata, Herr. reflexivity.
Qed.

(** C7. A multi-row query whose execution yields a result set with no row
    (and no error) makes [QueryMultiRow] succeed with a row sequence of
    length zero. *)
Theorem QueryMultiRow_no_rows ctx query args (s s' : S) (rows : Rows) columns :
  QueryContext db ctx query args s = ((rows, None), s') →
  Columns rows = (columns, None) →
  data rows = [] →
  Err rows = None →
  ∃ results,
    QueryMultiRow (SQLiteRepository db) ctx query args s = ((results, None), s')
    ∧ length results = 0.
Proof.
  intros Hquery Hcols Hdata Herr. exists []. split; [|reflexivity].
  simpl. unfold SQLite_QueryMultiRow.
  rewrite Hquery, Hcols, Hdata. simpl. by rewrite Herr.
Qed.

Lemma fillRow_lookup_notin columns i values row (col : string) :
  col ∉ columns → fillRow i columns values row !! col = row !! col.
Proof.
  revert i row. induction columns as [|c rest IH]; intros i row Hnotin; simpl; [done|].
  apply not_elem_of_cons in Hnotin as [Hne Hnotin].
  rewrite IH by done. by rewrite lookup_insert_ne.
Qed.

(** Of the columns of one name, the last one decides the entry of the row. *)
Lemma fillRow_lookup_last columns i values row j (col : string) :
  columns !! j = Some col →
  (∀ k, j < k → columns !! k ≠ Some col) →
  fillRow i columns values row !! col = Some (values !!! (i + j)).
Proof.
  revert i row j. induction columns as [|c rest IH]; intros i row j Hj Hlast; [done|].
  destruct j as [|j]; simpl in *.
  - injection Hj as ->. rewrite fillRow_lookup_notin.
    + rewrite lookup_insert_eq. do 2 f_equal. lia.
    + intros Hin. apply list_elem_of_lookup in Hin as [k Hk].
      apply (Hlast (Datatypes.S k)); [lia|done].
  - rewrite (IH (Datatypes.S i) _ j Hj).
    + do 2 f_equal. lia.
    + intros k Hk. apply (Hlast (Datatypes.S k)). lia.
Qed.

Lemma scanRows_ok columns data results out :
  scanRows columns data results = (out, None) →
  out = (results ++ ((fun vals => fillRow 0 columns vals ∅) <$> data))%list
  ∧ Forall (fun vals => length vals = length columns) data.
Proof.
  revert results. induction data as [|vals rest IH]; intros results; simpl.
  - intros [= <-]. by rewrite app_nil_r.
  - unfold Rows_Scan. destruct (decide (length vals = length columns)) as [Hlen|Hlen]; [|done].
    intros Hrest. apply IH in Hrest as [-> Hall]. split; [|by constructor].
    by rewrite <- app_assoc.
Qed.

(** The row sequence of a successful [QueryMultiRow]: one mapping per row of
    the result set, in order. *)
Lemma QueryMultiRow_ok ctx query args (s s' : S) results :
  QueryMultiRow (SQLiteRepository db) ctx query args s = ((results, None), s') →
  ∃ rows columns,
    QueryContext db ctx query args s = ((rows, None), s')
    ∧ Columns rows = (columns, None)
    ∧ results = (fun vals => fillRow 0 columns vals ∅) <$> data rows
    ∧ Forall (fun vals => length vals = length columns) (data rows).
Proof.
  simpl. unfold SQLite_QueryMultiRow.
  destruct (QueryContext db ctx query args s) as [[rows [err|]] s1]; [done|].
  destruct (Columns rows) as [columns [err|]] eqn:Hcols; [done|].
  destruct (scanRows columns (data rows) []) as [out [err|]] eqn:Hscan; [done|].
  destruct (Err rows); [done|]. intros [= <- <-].
  apply scanRows_ok in Hscan as [-> Hall]. by exists rows, columns.
Qed.

(** C8, as the code has it. In every row that [QueryMultiRow] returns, the
    value that the driver hands over for a column is stored unchanged under
    the column's name, provided no later column of the result set has the
    same name: nil for a SQL NULL, which is neither the empty string nor
    zero, an [int64] for an integer, a [float64] for a real and a string for
    a text. *)
Theorem QueryMultiRow_column_values ctx query args (s s' : S) rows results :
  QueryContext db ctx query args s = ((rows, None), s') →
  QueryMultiRow (SQLiteRepository db) ctx query args s = ((results, None), s') →
  length results = length (data rows)
  ∧ (∀ r row vals i col v,
       results !! r = Some row →
       data rows !! r = Some vals →
       (Columns rows).1 !! i = Some col →
       (∀ k, i < k → (Columns rows).1 !! k ≠ Some col) →
       vals !! i = Some v →
       row !! col = Some v
       ∧ (v = nil_any → row !! col ≠ Some (str "") ∧ row !! col ≠ Some (int64 0)
                        ∧ row !! col ≠ Some (float64 0))
       ∧ (∀ n, v = int64 n → row !! col = Some (int64 n))
       ∧ (∀ f, v = float64 f → row !! col = Some (float64 f))
       ∧ (∀ t, v = str t → row !! col = Some (str t))).
Proof.
  intros Hquery Hmulti.
  apply QueryMultiRow_ok in Hmulti as (rows' & columns & Hquery' & Hcols & -> & Hall).
  rewrite Hquery in Hquery'. injection Hquery' as <-.
  rewrite Hcols. simpl. split; [by rewrite length_fmap|].
  intros r row vals i col v Hrow Hvals Hcol Hlast Hv.
  rewrite list_lookup_fmap, Hvals in Hrow. injection Hrow as <-.
  assert (Hstored : fillRow 0 columns vals ∅ !! col = Some v).
  { rewrite (fillRow_lookup_last columns 0 vals ∅ i col Hcol Hlast). simpl.
    f_equal. by apply list_lookup_total_correct. }
  rewrite Hstored. split; [done|]. split.
  - intros ->. repeat split; discriminate.
  - repeat split; by intros ? ->.
Qed.

End RepositoryProperties.

(** ** The service: parameters and single metrics *)
Section ParameterProperties.
Import Models Strconv Repository Service.
Context `{FloatParser}.

Local Open Scope Z_scope.




End ParameterProperties.

(** ** Package strconv: the float parse *)
Section FloatProperties.
Import Strconv.
Local Open Scope Z_scope.









(** *** Strings without a digit *)





(** *** The special values *)







(** *** Decimal and exponential notation *)












End FloatProperties.

(** ** Package service: the conversion of a parameter, on the library's parsers *)
Section ConversionProperties.
Import Models Strconv Service.
Local Open Scope Z_scope.




#[local] Set Warnings "-inexact-float".

(** The float rows of [TestConvertParamValue], and inputs beyond decimal
    notation that the library accepts: a hexadecimal number, underscores
    between digits, a point without digits on one side, an infinity. *)
Lemma convertParamValue_float_table :
  convertParamValue (H := strconvFloats) "3.14" ParamTypeFloat = (float64 3.14, None)
  ∧ convertParamValue (H := strconvFloats) "0.0" ParamTypeFloat = (float64 0, None)
  ∧ convertParamValue (H := strconvFloats) "-2.5" ParamTypeFloat = (float64 (-2.5), None)
  ∧ convertParamValue (H := strconvFloats) "42" ParamTypeFloat = (float64 42, None)
  ∧ convertParamValue (H := strconvFloats) "1e10" ParamTypeFloat = (float64 1e10, None)
  ∧ (convertParamValue (H := strconvFloats) "abc" ParamTypeFloat).2
    = Some (Errorf "invalid float value %q: %w" ["abc"]
              (Some (syntaxError "ParseFloat" "abc")))
  ∧ (convertParamValue (H := strconvFloats) "3.14.15" ParamTypeFloat).2
    = Some (Errorf "invalid float value %q: %w" ["3.14.15"]
              (Some (syntaxError "ParseFloat" "3.14.15")))
  ∧ convertParamValue (H := strconvFloats) "0x1p-2" ParamTypeFloat = (float64 0.25, None)
  ∧ convertParamValue (H := strconvFloats) "1_000" ParamTypeFloat = (float64 1000, None)
  ∧ convertParamValue (H := strconvFloats) ".5" ParamTypeFloat = (float64 0.5, None)
  ∧ convertParamValue (H := strconvFloats) "5." ParamTypeFloat = (float64 5, None)
  ∧ convertParamValue (H := strconvFloats) "-Infinity" ParamTypeFloat
    = (float64 neg_infinity, None).
Proof. repeat split; vm_compute; reflexivity. Qed.

(** The model of [strconv.ParseFloat] on inputs of every kind: decimal and
    hexadecimal numbers, rounding at a tie and next to one, the largest and
    the smallest values and the first ones beyond them, the special values,
    underscores, and inputs that are no number. *)
Example ParseFloat64_table :
  ParseFloat64 "1e23" = (1e23%float, None)
  ∧ ParseFloat64 "100000000000000016777216" = (1.0000000000000003e+23%float, None)
  ∧ ParseFloat64 "-0" = ((-0)%float, None)
  ∧ ParseFloat64 "625e-3" = (0.625%float, None)
  ∧ ParseFloat64 "+1.5E+3" = (1500%float, None)
  ∧ ParseFloat64 ".5" = (0.5%float, None)
  ∧ ParseFloat64 "5." = (5%float, None)
  ∧ ParseFloat64 "0x1ep-1" = (15%float, None)
  ∧ ParseFloat64 "-0x1_ep-1" = ((-15)%float, None)
  ∧ ParseFloat64 "0x1fFe2.p0" = (131042%float, None)
  ∧ ParseFloat64 "0x1e2" = (0%float, Some (syntaxError "ParseFloat" "0x1e2"))
  ∧ ParseFloat64 "1p2" = (0%float, Some (syntaxError "ParseFloat" "1p2"))
  ∧ ParseFloat64 "0x1" = (0%float, Some (syntaxError "ParseFloat" "0x1"))
  ∧ ParseFloat64 "1e" = (0%float, Some (syntaxError "ParseFloat" "1e"))
  ∧ ParseFloat64 "1e-" = (0%float, Some (syntaxError "ParseFloat" "1e-"))
  ∧ ParseFloat64 ".e-1" = (0%float, Some (syntaxError "ParseFloat" ".e-1"))
  ∧ ParseFloat64 "" = (0%float, Some (syntaxError "ParseFloat" ""))
  ∧ ParseFloat64 " 1" = (0%float, Some (syntaxError "ParseFloat" " 1"))
  ∧ ParseFloat64 "1x" = (0%float, Some (syntaxError "ParseFloat" "1x"))
  ∧ ParseFloat64 "1.1." = (0%float, Some (syntaxError "ParseFloat" "1.1."))
  ∧ ParseFloat64 "NAN" = (nan, None)
  ∧ ParseFloat64 "+INF" = (infinity, None)
  ∧ ParseFloat64 "-Infinity" = (neg_infinity, None)
  ∧ ParseFloat64 "infi" = (0%float, Some (syntaxError "ParseFloat" "infi"))
  ∧ ParseFloat64 "+nan" = (0%float, Some (syntaxError "ParseFloat" "+nan"))
  ∧ ParseFloat64 "1.7976931348623158e308" = (1.7976931348623157e+308%float, None)
  ∧ ParseFloat64 "1.797693134862315808e308"
    = (infinity, Some (rangeError "ParseFloat" "1.797693134862315808e308"))
  ∧ ParseFloat64 "-1e400" = (neg_infinity, Some (rangeError "ParseFloat" "-1e400"))
  ∧ ParseFloat64 "0x1.fffffffffffff8p1023"
    = (infinity, Some (rangeError "ParseFloat" "0x1.fffffffffffff8p1023"))
  ∧ ParseFloat64 "0x1.fffffffffffff7fffp1023" = (1.7976931348623157e+308%float, None)
  ∧ ParseFloat64 "5e-324" = (5e-324%float, None)
  ∧ ParseFloat64 "3e-324" = (5e-324%float, None)
  ∧ ParseFloat64 "2e-324" = (0%float, None)
  ∧ ParseFloat64 "1e-350" = (0%float, None)
  ∧ ParseFloat64 "2.2250738585072012e-308" = (2.2250738585072014e-308%float, None)
  ∧ ParseFloat64 "2.2250738585072011e-308" = (2.225073858507201e-308%float, None)
  ∧ ParseFloat64 "1.00000000000000011102230246251565404236316680908203125" = (1%float, None)
  ∧ ParseFloat64 "1.00000000000000011102230246251565404236316680908203126"
    = (1.0000000000000002%float, None)
  ∧ ParseFloat64 "1.00000000000000033306690738754696212708950042724609375"
    = (1.0000000000000004%float, None)
  ∧ ParseFloat64 "0x1.00000000000008p0" = (1%float, None)
  ∧ ParseFloat64 "0x1.00000000000018p0" = (1.0000000000000004%float, None)
  ∧ ParseFloat64 "1_23.50_0e+1_2" = (1.235e+14%float, None)
  ∧ ParseFloat64 "_123.5e+12" = (0%float, Some (syntaxError "ParseFloat" "_123.5e+12"))
  ∧ ParseFloat64 "1__23.5e+12" = (0%float, Some (syntaxError "ParseFloat" "1__23.5e+12"))
  ∧ ParseFloat64 "123_.5e+12" = (0%float, Some (syntaxError "ParseFloat" "123_.5e+12"))
  ∧ ParseFloat64 "123.5e+12_" = (0%float, Some (syntaxError "ParseFloat" "123.5e+12_"))
  ∧ ParseFloat64 "0x_1_2.3_4_5p+1_2" = (74565%float, None)
  ∧ ParseFloat64 "0x12.345p+12_" = (0%float, Some (syntaxError "ParseFloat" "0x12.345p+12_"))
  ∧ ParseFloat64 "1e100x" = (0%float, Some (syntaxError "ParseFloat" "1e100x"))
  ∧ ParseFloat64 "1e1000x" = (0%float, Some (syntaxError "ParseFloat" "1e1000x")).
Proof. repeat split; vm_compute; reflexivity. Qed.

End ConversionProperties.

Section MetricProperties.
Import Models Strconv Repository Service.
Context `{FloatParser} {S : Type}.

Lemma NewMetricService_named (repo : Repository S) metricsList :
  named (metrics (NewMetricService repo metricsList)).
Proof.
  unfold NewMetricService. simpl.
  assert (Hgen : ∀ acc : gmap string Metric, named acc →
            named (foldl (fun metricsMap m => <[Name m := m]> metricsMap) acc metricsList)).
  { induction metricsList as [|m rest IH]; intros acc Hacc; simpl; [done|].
    apply IH. intros name metric. destruct (decide (Name m = name)) as [<-|Hne].
    - rewrite lookup_insert_eq. by intros [= <-].
    - rewrite lookup_insert_ne by done. apply Hacc. }
  apply Hgen. intros name metric. by rewrite lookup_empty.
Qed.

(** What [GetMetric] returns: one result that carries the requested name and
    no error, or no result and an error. *)
Lemma GetMetric_shape (ms : MetricService S) ctx name params w rs err w' :
  named (metrics ms) →
  GetMetric ms ctx name params w = ((rs, err), w') →
  match err with
  | None => ∃ v, rs = [ {| mr_Name := name; mr_Value := v |} ]
  | Some _ => rs = []
  end.
Proof.
  intros Hnamed. unfold GetMetric.
  destruct (metrics ms !! name) as [metric|] eqn:Hlookup; [|by intros [= <- <- <-]].
  apply Hnamed in Hlookup as <-.
  destruct (prepareParams metric params) as [args [e|]]; [by intros [= <- <- <-]|].
  destruct (MultiRow metric).
  - destruct (QueryMultiRow _ _ _ _ _) as [[rows [e|]] s]; intros [= <- <- <-]; eauto.
  - destruct (QuerySingleValue _ _ _ _ _) as [[result [e|]] s]; intros [= <- <- <-]; eauto.
Qed.

Lemma prepareLoop_agree metric (params1 params2 : gmap string string) defs i args :
  (∀ paramDef, paramDef ∈ defs → params1 !! pd_Name paramDef = params2 !! pd_Name paramDef) →
  prepareLoop metric params1 i defs args = prepareLoop metric params2 i defs args.
Proof.
  revert i args. induction defs as [|paramDef rest IH]; intros i args Hagree; simpl; [done|].
  rewrite (Hagree paramDef) by apply list_elem_of_here.
  destruct (_ && _); [done|].
  destruct (convertParamValue _ _) as [convertedValue [err|]]; [done|].
  apply IH. intros p Hp. apply Hagree. by apply list_elem_of_further.
Qed.

Lemma prepareParams_agree metric (params1 params2 : gmap string string) :
  (∀ paramDef, paramDef ∈ Params metric →
     params1 !! pd_Name paramDef = params2 !! pd_Name paramDef) →
  prepareParams metric params1 = prepareParams metric params2.
Proof.
  intros Hagree. unfold prepareParams. destruct (decide _); [done|].
  by apply prepareLoop_agree.
Qed.

(** C10. Two input maps that agree on every parameter name that the metric
    declares (present in both with one value, or absent from both) make
    [GetMetric] return the same results and the same error, call the
    repository with the same arguments and leave the same store, whatever
    other keys either map has. *)
Theorem GetMetric_ignores_undeclared (ms : MetricService S) ctx name
    (params1 params2 : gmap string string) (w : World S) :
  (∀ metric paramDef, metrics ms !! name = Some metric → paramDef ∈ Params metric →
     params1 !! pd_Name paramDef = params2 !! pd_Name paramDef) →
  GetMetric ms ctx name params1 w = GetMetric ms ctx name params2 w
  ∧ (∀ metric, metrics ms !! name = Some metric →
       prepareParams metric params1 = prepareParams metric params2).
Proof.
  intros Hagree.
  assert (Hprep : ∀ metric, metrics ms !! name = Some metric →
            prepareParams metric params1 = prepareParams metric params2).
  { intros metric Hlookup. apply prepareParams_agree. intros p Hp. by eapply Hagree. }
  split; [|exact Hprep].
  unfold GetMetric. destruct (metrics ms !! name) as [metric|] eqn:Hlookup; [|done].
  by rewrite (Hprep metric).
Qed.

(** C1, on the code as it is. A metric whose only parameter is an optional
    string: with no input at all, [prepareParams] succeeds with the empty
    string in the parameter's place and [GetMetric] calls the repository
    with it. A metric whose only parameter is an optional integer: with no
    input, the failure is the conversion error of the empty string. In
    neither case is the error one about an optional parameter. *)
Theorem GetMetric_optional_param_defaulted (repo : Repository S) ctx (w : World S) :
  let ms := NewMetricService repo [Examples.users_by_status; Examples.users_limited] in
  prepareParams Examples.users_by_status ∅ = ([str ""], None)
  ∧ calls (GetMetric ms ctx "users_by_status" ∅ w).2
    = (calls w ++ [CallQuerySingleValue ctx (Query Examples.users_by_status) [str ""]])%list
  ∧ GetMetric ms ctx "users_limited" ∅ w
    = (([], Some (Errorf "metric %q: parameter %q: %w" ["users_limited"; "limit"]
                    (Some (Errorf "invalid integer value %q: %w" [""]
                             (Some (syntaxError "ParseInt" "")))))), w).
Proof.
  intros ms. split; [reflexivity|]. split.
  - unfold GetMetric. subst ms. unfold NewMetricService. simpl.
    rewrite lookup_insert_ne by done. rewrite lookup_insert_eq.
    change (prepareParams Examples.users_by_status ∅) with ([str ""], @None error).
    simpl. by destruct (QuerySingleValue repo _ _ _ _) as [[result [err|]] s].
  - unfold GetMetric. subst ms. unfold NewMetricService. simpl.
    by rewrite lookup_insert_eq.
Qed.

End MetricProperties.

(** ** The service: batches of metrics *)
Section BatchProperties.
Import Models Strconv Repository Service.
Context `{FloatParser} {S : Type}.
Variables (ms : MetricService S) (ctx : Context).
Variables (names : list string) (params : gmap string string).
Hypothesis ms_named : named (metrics ms).

Lemma GroupInv_init (w : World S) :
  GroupInv names {| world := w; outcome := ∅; returned := ∅;
                    results := replicate (length names) MetricResult_zero; egErr := None |}.
Proof.
  constructor; simpl.
  - apply length_replicate.
  - intros i Hi. set_solver.
  - intros i rs err. by rewrite lookup_empty.
  - intros i r Hi. set_solver.
  - intros _ i rs err Hi. set_solver.
  - done.
Qed.

Lemma step_inv g ev g' :
  GroupInv names g → step ms ctx names params g ev = Some g' → GroupInv names g'.
Proof.
  intros Hinv. destruct ev as [i|i]; simpl.
  - (* goroutine [i] calls [GetMetric] *)
    destruct (names !! i) as [name|] eqn:Hname; [|done].
    destruct (outcome g !! i) as [r|] eqn:Hnone; [done|].
    destruct (GetMetric ms (egCtx ctx g) name params (world g)) as [[rs err] w] eqn:Hget.
    intros [= <-].
    assert (Hother : ∀ j, j ∈ returned g → i ≠ j).
    { intros j Hj ->. apply (inv_returned names g Hinv) in Hj as [r Hr]. congruence. }
    constructor; simpl.
    + apply (inv_length names g Hinv).
    + intros j Hj. rewrite lookup_insert_ne by by apply Hother.
      by apply (inv_returned names g Hinv).
    + intros j rs' err'. destruct (decide (i = j)) as [<-|Hne].
      * rewrite lookup_insert_eq. intros [= <- <-]. exists name. split; [done|].
        by apply (GetMetric_shape ms _ name params _ rs err w ms_named Hget).
      * rewrite lookup_insert_ne by done. apply (inv_outcome names g Hinv).
    + intros j r Hj. rewrite lookup_insert_ne by by apply Hother.
      by apply (inv_slot names g Hinv).
    + intros Hnoerr j rs' err' Hj. rewrite lookup_insert_ne by by apply Hother.
      by apply (inv_no_error names g Hinv).
    + intros e He. destruct (inv_error names g Hinv e He) as (j & rs' & Hj & Hout).
      exists j, rs'. split; [done|]. by rewrite lookup_insert_ne by by apply Hother.
  - (* goroutine [i] returns *)
    destruct (outcome g !! i) as [[rs err]|] eqn:Hout; [|done].
    case_bool_decide as Hret; [done|].
    destruct (inv_outcome names g Hinv i rs err Hout) as (name & Hname & Hshape).
    destruct err as [err|]; intros [= <-].
    + constructor; simpl.
      * apply (inv_length names g Hinv).
      * intros j Hj. apply elem_of_union in Hj as [Hj|Hj]; [|by apply (inv_returned names g Hinv)].
        apply elem_of_singleton in Hj as ->. by rewrite Hout.
      * apply (inv_outcome names g Hinv).
      * intros j r Hj Hr. apply elem_of_union in Hj as [Hj|Hj]; [|by apply (inv_slot names g Hinv)].
        apply elem_of_singleton in Hj as ->. congruence.
      * destruct (egErr g); discriminate.
      * intros e He. destruct (egErr g) as [first|] eqn:Hfirst.
        -- injection He as <-. destruct (inv_error names g Hinv first Hfirst) as (j & rs' & Hj & Hj').
           exists j, rs'. split; [|done]. apply elem_of_union. by right.
        -- injection He as <-. exists i, rs. split; [|done]. apply elem_of_union. left. by apply elem_of_singleton.
    + destruct Hshape as [v ->].
      assert (Hi : (i < length (results g))%nat).
      { rewrite (inv_length names g Hinv). by eapply lookup_lt_Some. }
      constructor; simpl.
      * rewrite length_insert. apply (inv_length names g Hinv).
      * intros j Hj. apply elem_of_union in Hj as [Hj|Hj]; [|by apply (inv_returned names g Hinv)].
        apply elem_of_singleton in Hj as ->. by rewrite Hout.
      * apply (inv_outcome names g Hinv).
      * intros j r Hj Hr. destruct (decide (i = j)) as [<-|Hne].
        -- rewrite Hout in Hr. injection Hr as <-. by apply list_lookup_insert_eq.
        -- rewrite list_lookup_insert_ne by done. apply (inv_slot names g Hinv); [|done].
           apply elem_of_union in Hj as [Hj|Hj]; [|done]. by apply elem_of_singleton in Hj.
      * intros Hnoerr j rs' err' Hj Hj'. destruct (decide (i = j)) as [<-|Hne].
        -- congruence.
        -- eapply (inv_no_error names g Hinv); [done| |exact Hj'].
           apply elem_of_union in Hj as [Hj|Hj]; [|done]. by apply elem_of_singleton in Hj.
      * intros e He. destruct (inv_error names g Hinv e He) as (j & rs' & Hj & Hj').
        exists j, rs'. split; [|done]. apply elem_of_union. by right.
Qed.

Lemma runGroup_inv sched g g' :
  GroupInv names g → runGroup ms ctx names params g sched = Some g' → GroupInv names g'.
Proof.
  revert g. induction sched as [|ev rest IH]; intros g Hinv; simpl.
  - by intros [= <-].
  - destruct (step ms ctx names params g ev) as [g1|] eqn:Hstep; [|done].
    apply IH. by eapply step_inv.
Qed.

(** Once [goroutines] yields a group, the invariant holds of it and every
    goroutine has returned. *)
Lemma goroutines_done w sched g :
  goroutines ms ctx names params w sched = Some g →
  GroupInv names g ∧ ∀ i, (i < length names)%nat → i ∈ returned g.
Proof.
  unfold goroutines.
  destruct (runGroup _ _ _ _ _ sched) as [g1|] eqn:Hrun; [|done].
  destruct (forallb _ _) eqn:Hall; [|done]. intros [= <-]. split.
  - eapply runGroup_inv; [apply GroupInv_init|exact Hrun].
  - intros i Hi. rewrite forallb_forall in Hall.
    specialize (Hall i). rewrite bool_decide_eq_true in Hall.
    apply Hall, in_seq. lia.
Qed.

End BatchProperties.

Section BatchTheorems.
Import Models Strconv Repository Service.
Context `{FloatParser} {S : Type}.

(** C2. Whatever the schedule of the goroutines: when the [GetMetric] call of
    every goroutine returned no error, [GetMetrics] returns no error and a
    result list as long as [names], whose entry at each index is the one
    result of the goroutine of that index and carries the name requested at
    that index (a name requested twice has its two entries). *)
Theorem GetMetrics_order (repo : Repository S) metricsList ctx
    (names : list string) params (w : World S) sched g :
  goroutines (NewMetricService repo metricsList) ctx names params w sched = Some g →
  (∀ i name, names !! i = Some name → ∃ rs, outcome g !! i = Some (rs, None)) →
  ∃ results,
    GetMetrics (NewMetricService repo metricsList) ctx names params w sched
    = Some ((results, None), world g)
    ∧ length results = length names
    ∧ ∀ i name, names !! i = Some name →
        ∃ v, results !! i = Some {| mr_Name := name; mr_Value := v |}
             ∧ outcome g !! i = Some ([ {| mr_Name := name; mr_Value := v |} ], None).
Proof.
  intros Hgo Hall.
  destruct (goroutines_done _ ctx names params (NewMetricService_named repo metricsList)
              w sched g Hgo) as [Hinv Hdone].
  destruct Hinv as [Hlength _ Houtcome Hslot _ Herror].
  assert (Hnoerr : egErr g = None).
  { destruct (egErr g) as [e|] eqn:He; [|done].
    destruct (Herror e eq_refl) as (i & rs & _ & Hout).
    destruct (Houtcome i rs _ Hout) as (name & Hname & _).
    destruct (Hall i name Hname) as [rs' Hout']. congruence. }
  exists (results g). unfold GetMetrics. rewrite Hgo, Hnoerr.
  split; [done|]. split; [exact Hlength|].
  intros i name Hname. destruct (Hall i name Hname) as [rs Hout].
  destruct (Houtcome i rs None Hout) as (name' & Hname' & v & ->).
  assert (name' = name) as -> by congruence.
  exists v. split; [|done].
  apply Hslot; [|done]. apply Hdone. by eapply lookup_lt_Some.
Qed.

(** C3. Whatever the schedule of the goroutines: when the [GetMetric] call of
    some goroutine returned an error, [GetMetrics] returns an error, which
    is the error of one of the goroutines, and a nil result list. *)
Theorem GetMetrics_fail_fast (repo : Repository S) metricsList ctx
    (names : list string) params (w : World S) sched g :
  goroutines (NewMetricService repo metricsList) ctx names params w sched = Some g →
  (∃ i rs e, outcome g !! i = Some (rs, Some e)) →
  ∃ e,
    GetMetrics (NewMetricService repo metricsList) ctx names params w sched
    = Some (([], Some e), world g)
    ∧ ∃ i rs, outcome g !! i = Some (rs, Some e).
Proof.
  intros Hgo (i & rs & e & Hout).
  destruct (goroutines_done _ ctx names params (NewMetricService_named repo metricsList)
              w sched g Hgo) as [Hinv Hdone].
  destruct Hinv as [_ _ Houtcome _ Hnoerror Herror].
  destruct (Houtcome i rs _ Hout) as (name & Hname & _).
  assert (Hi : i ∈ returned g) by (apply Hdone; by eapply lookup_lt_Some).
  destruct (egErr g) as [first|] eqn:Hfirst.
  - exists first. unfold GetMetrics. rewrite Hgo, Hfirst. split; [done|].
    destruct (Herror first eq_refl) as (j & rs' & _ & Hj). eauto.
  - by specialize (Hnoerror eq_refl i rs (Some e) Hi Hout).
Qed.

(** C4. With no name, [GetMetrics] returns an empty result list and no
    error, and the repository is not called: the store and the record of
    calls are as before. No goroutine is started, so the empty schedule is
    the only one. *)
Theorem GetMetrics_empty (ms : MetricService S) ctx params (w : World S) :
  GetMetrics ms ctx [] params w [] = Some (([], None), w)
  ∧ ∀ sched out, GetMetrics ms ctx [] params w sched = Some out →
      sched = [] ∧ out = (([], None), w) ∧ calls out.2 = calls w ∧ store out.2 = store w.
Proof.
  split; [reflexivity|]. intros sched out.
  destruct sched as [|ev rest].
  - intros [= <-]. by repeat split.
  - unfold GetMetrics, goroutines. simpl.
    assert (Hstep : ∀ g : Group S, outcome g = ∅ → step ms ctx [] params g ev = None).
    { intros g Hempty. destruct ev as [i|i]; simpl; [done|]. by rewrite Hempty, lookup_empty. }
    by rewrite Hstep.
Qed.

(** For every list of names there is a schedule, and [GetMetrics] returns on
    it: the goroutines one after the other. *)
Lemma runGroup_inOrder (ms : MetricService S) ctx (names : list string) params m :
  ∀ k (g : Group S),
    (k + m = length names)%nat →
    (∀ j, (k ≤ j)%nat → outcome g !! j = None) →
    (∀ j, j ∈ returned g ↔ (j < k)%nat) →
    ∃ g', runGroup ms ctx names params g (flat_map (fun i => [Run i; Return i]) (seq k m))
          = Some g'
          ∧ ∀ j, (j < k + m)%nat → j ∈ returned g'.
Proof.
  induction m as [|m IH]; intros k g Hlen Hfresh Hret; simpl.
  - exists g. split; [done|]. intros j Hj. apply Hret. lia.
  - destruct (lookup_lt_is_Some_2 names k) as [name Hname]; [lia|].
    rewrite Hname, (Hfresh k) by lia.
    destruct (GetMetric ms (egCtx ctx g) name params (world g)) as [[rs err] w1].
    simpl. rewrite lookup_insert_eq.
    rewrite bool_decide_eq_false_2 by (rewrite Hret; lia).
    assert (Hnext : ∀ g1 : Group S,
              outcome g1 = <[k := (rs, err)]> (outcome g) →
              returned g1 = {[k]} ∪ returned g →
              ∃ g', runGroup ms ctx names params g1
                      (flat_map (fun i => [Run i; Return i]) (seq (Datatypes.S k) m)) = Some g'
                    ∧ ∀ j, (j < k + Datatypes.S m)%nat → j ∈ returned g').
    { intros g1 Hout1 Hret1. destruct (IH (Datatypes.S k) g1) as (g' & Hrun & Hall).
      - lia.
      - intros j Hj. rewrite Hout1, lookup_insert_ne by lia. apply Hfresh. lia.
      - intros j. rewrite Hret1, elem_of_union, elem_of_singleton, Hret. lia.
      - exists g'. split; [done|]. intros j Hj. apply Hall. lia. }
    destruct err as [err|]; apply Hnext; reflexivity.
Qed.

Lemma GetMetrics_inOrder_returns (ms : MetricService S) ctx (names : list string) params w :
  is_Some (GetMetrics ms ctx names params w (inOrder (length names))).
Proof.
  unfold GetMetrics, goroutines, inOrder.
  edestruct (runGroup_inOrder ms ctx names params (length names) 0) as (g & -> & Hall).
  - reflexivity.
  - intros j _. simpl. apply lookup_empty.
  - intros j. simpl. split; [set_solver|lia].
  - assert (Hdone : forallb (fun i => bool_decide (i ∈ returned g)) (seq 0 (length names))
                    = true).
    { apply forallb_forall. intros i Hi. apply bool_decide_eq_true, Hall.
      apply in_seq in Hi. lia. }
    rewrite Hdone. destruct (egErr g); eauto.
Qed.

End BatchTheorems.

(** ** The properties at the data of the repository's tests *)
Section Witnesses.
Import Models Sql Strconv Repository Service Examples.

(** C6 at the query of [TestQuerySingleValue_NoRows]. *)
Lemma QuerySingleValue_no_rows_witness :
  QuerySingleValue (SQLiteRepository (constDB noMatch)) Background
    "SELECT name FROM test_data WHERE id = ?" [int64 999] tt
  = ((nil_any, Some (Errorf "no rows returned" [] None)), tt).
Proof.
  apply (QuerySingleValue_no_rows (constDB noMatch) Background
           "SELECT name FROM test_data WHERE id = ?" [int64 999] tt tt noMatch);
    reflexivity.
Defined.

(** C7 at the query of [TestQueryMultiRow_NoRows]. *)
Lemma QueryMultiRow_no_rows_witness :
  ∃ results,
    QueryMultiRow (SQLiteRepository (constDB noMatch)) Background
      "SELECT name FROM test_data WHERE id = ?" [int64 999] tt
    = ((results, None), tt)
    ∧ length results = 0.
Proof.
  apply (QueryMultiRow_no_rows (constDB noMatch) Background
           "SELECT name FROM test_data WHERE id = ?" [int64 999] tt tt noMatch ["name"]);
    reflexivity.
Defined.

(** C8 at the rows of [TestQueryMultiRow_NullHandling]: the second row has a
    NULL in the column [optional]. *)
Lemma QueryMultiRow_column_values_witness :
  ∃ row,
    (QueryMultiRow (SQLiteRepository (constDB withNull)) Background
       "SELECT id, optional FROM test_data ORDER BY id" [] tt).1.1 !! 1 = Some row
    ∧ row !! "optional" = Some nil_any
    ∧ row !! "optional" ≠ Some (str "").
Proof.
  destruct (QueryMultiRow_column_values (constDB withNull) Background
              "SELECT id, optional FROM test_data ORDER BY id" [] tt tt withNull
              (QueryMultiRow (SQLiteRepository (constDB withNull)) Background
                 "SELECT id, optional FROM test_data ORDER BY id" [] tt).1.1
              eq_refl eq_refl) as [_ Hcolumns].
  exists (fillRow 0 ["id"; "optional"] [int64 2; nil_any] ∅). split; [reflexivity|].
  destruct (Hcolumns 1 (fillRow 0 ["id"; "optional"] [int64 2; nil_any] ∅)
              [int64 2; nil_any] 1 "optional" nil_any)
    as (Hstored & Hnull & _); try reflexivity.
  - intros k Hk. destruct k as [|[|k]]; [lia|lia|]. simpl. destruct k; discriminate.
  - split; [exact Hstored|]. by apply Hnull.
Defined.

(** C8, as stated, fails on a result set with two columns of one name: the
    NULL of the first column [x] is not the entry [x] of the row. *)
Lemma QueryMultiRow_null_shadowed :
  ¬ nullColumnsAreNull twoColumnsOneName
      (QueryMultiRow (SQLiteRepository (constDB twoColumnsOneName)) Background
         "SELECT NULL AS x, 1 AS x" [] tt).1.1.
Proof.
  intros Hclaim.
  specialize (Hclaim 0 _ [nil_any; int64 1] 0 "x" eq_refl eq_refl eq_refl eq_refl).
  vm_compute in Hclaim. discriminate.
Qed.

(** C10 at [rows_by_id], with and without an undeclared key [debug]. *)
Lemma GetMetric_ignores_undeclared_witness :
  GetMetric (H := noFloats) (NewMetricService (mockRepository (int64 100) None [] None) catalog)
    Background "rows_by_id" {[ "id" := "7" ]} freshWorld
  = GetMetric (H := noFloats) (NewMetricService (mockRepository (int64 100) None [] None) catalog)
      Background "rows_by_id" (<[ "debug" := "1" ]> {[ "id" := "7" ]}) freshWorld.
Proof.
  apply (GetMetric_ignores_undeclared (H := noFloats)).
  intros metric paramDef Hmetric HparamDef.
  vm_compute in Hmetric. injection Hmetric as <-.
  apply list_elem_of_singleton in HparamDef as ->. reflexivity.
Defined.

(** C2 at a list with a name requested twice; the third goroutine calls
    first and returns last. *)
Lemma GetMetrics_order_witness :
  ∃ results,
    (∃ w, GetMetrics (H := noFloats) (testService (mockRepository (int64 100) None [] None))
            Background ["revenue"; "active_users"; "revenue"] ∅ freshWorld
            [Run 2; Run 0; Return 0; Run 1; Return 1; Return 2]
          = Some ((results, None), w))
    ∧ length results = 3
    ∧ ∀ i name, ["revenue"; "active_users"; "revenue"] !! i = Some name →
        ∃ v, results !! i = Some {| mr_Name := name; mr_Value := v |}.
Proof.
  edestruct (GetMetrics_order (H := noFloats) (mockRepository (int64 100) None [] None)
               [active_users; signups; revenue] Background
               ["revenue"; "active_users"; "revenue"] ∅ freshWorld
               [Run 2; Run 0; Return 0; Run 1; Return 1; Return 2])
    as (results & Hget & Hlen & Hslots).
  - vm_compute. reflexivity.
  - intros i name Hname. destruct i as [|[|[|i]]]; [| | |done]; eexists; vm_compute; reflexivity.
  - exists results. split; [eauto|]. split; [exact Hlen|].
    intros i name Hname. destruct (Hslots i name Hname) as (v & Hv & _). eauto.
Defined.

(** C3 at the service of [TestMetricService_GetMetrics_ErrorHandling], whose
    repository fails on its second call; the second goroutine calls first. *)
Lemma GetMetrics_fail_fast_witness :
  ∃ e w,
    GetMetrics (H := noFloats) (testService (testRepositoryWithFailure 1))
      Background ["active_users"; "signups"] ∅ freshWorld
      [Run 1; Run 0; Return 0; Return 1]
    = Some (([], Some e), w).
Proof.
  edestruct (GetMetrics_fail_fast (H := noFloats) (testRepositoryWithFailure 1)
               [active_users; signups; revenue] Background
               ["active_users"; "signups"] ∅ freshWorld
               [Run 1; Run 0; Return 0; Return 1])
    as (e & Hget & _).
  - vm_compute. reflexivity.
  - exists 0. do 2 eexists. vm_compute. reflexivity.
  - eauto.
Defined.

End Witnesses.

(** ** The tables of the repository's tests, evaluated *)
Section TestTables.
Import Models Strconv Repository Service Examples.

(** The integer and string rows of [TestConvertParamValue]. *)
Example convertParamValue_table :
  convertParamValue (H := noFloats) "hello world" ParamTypeString = (str "hello world", None)
  ∧ convertParamValue (H := noFloats) "42" ParamTypeInt = (int64 42, None)
  ∧ convertParamValue (H := noFloats) "0" ParamTypeInt = (int64 0, None)
  ∧ convertParamValue (H := noFloats) "-100" ParamTypeInt = (int64 (-100), None)
  ∧ convertParamValue (H := noFloats) "9223372036854775807" ParamTypeInt
    = (int64 9223372036854775807, None)
  ∧ (convertParamValue (H := noFloats) "abc" ParamTypeInt).2
    = Some (Errorf "invalid integer value %q: %w" ["abc"]
              (Some (syntaxError "ParseInt" "abc")))
  ∧ (convertParamValue (H := noFloats) "3.14" ParamTypeInt).2
    = Some (Errorf "invalid integer value %q: %w" ["3.14"]
              (Some (syntaxError "ParseInt" "3.14")))
  ∧ (convertParamValue (H := noFloats) "99999999999999999999" ParamTypeInt).2
    = Some (Errorf "invalid integer value %q: %w" ["99999999999999999999"]
              (Some (rangeError "ParseInt" "99999999999999999999")))
  ∧ (convertParamValue (H := noFloats) "true" "boolean").2
    = Some (Errorf "unsupported parameter type: %s" ["boolean"] None).
Proof. repeat split; vm_compute; reflexivity. Qed.

(** The scenario of the specification: [rows_by_id] with [id = 7], with
    [id = nope], and a metric that is not in the catalog. *)
Example GetMetric_scenario :
  let ms := NewMetricService (mockRepository nil_any None [ {[ "v" := str "x" ]} ] None) catalog in
  GetMetric (H := noFloats) ms Background "rows_by_id" {[ "id" := "7" ]} freshWorld
  = (([ {| mr_Name := "rows_by_id"; mr_Value := RowSet [ {[ "v" := str "x" ]} ] |} ], None),
     {| store := 1;
        calls := [CallQueryMultiRow Background "SELECT v FROM t WHERE id = ?" [int64 7]] |})
  ∧ GetMetric (H := noFloats) ms Background "rows_by_id" {[ "id" := "nope" ]} freshWorld
    = (([], Some (Errorf "metric %q: parameter %q: %w" ["rows_by_id"; "id"]
                    (Some (Errorf "invalid integer value %q: %w" ["nope"]
                             (Some (syntaxError "ParseInt" "nope")))))), freshWorld)
  ∧ GetMetric (H := noFloats) ms Background "missing_metric" ∅ freshWorld
    = (([], Some (Errorf "metric %q not found" ["missing_metric"] None)), freshWorld).
Proof. repeat split; vm_compute; reflexivity. Qed.

End TestTables.

(** * Further properties of the code *)

(** ** Package models: validation and parameter lookup *)
Section ModelProperties.
Import Models.

Lemma IsValid_true pt :
  IsValid pt = true ↔ pt = ParamTypeString ∨ pt = ParamTypeInt ∨ pt = ParamTypeFloat.
Proof.
  unfold IsValid. repeat case_decide; split; try tauto; discriminate.
Qed.

Lemma ParamDefinition_Validate_None pd :
  ParamDefinition_Validate pd = None ↔ pd_Name pd ≠ "" ∧ IsValid (pd_Type pd) = true.
Proof.
  unfold ParamDefinition_Validate. case_decide as Hname.
  - split; [discriminate|]. by intros [? _].
  - destruct (IsValid (pd_Type pd)); simpl; split; try done. by intros [_ ?].
Qed.

Lemma validateParams_None ps :
  validateParams ps = None ↔ Forall (fun pd => ParamDefinition_Validate pd = None) ps.
Proof.
  induction ps as [|pd rest IH]; simpl.
  - split; [constructor|done].
  - rewrite Forall_cons. destruct (ParamDefinition_Validate pd); [|rewrite IH; tauto].
    split; [discriminate|]. by intros [? _].
Qed.

(** The error of the parameter loop is the error of the first parameter
    definition that does not validate. *)
Lemma validateParams_Some ps err :
  validateParams ps = Some err →
  ∃ i pd, ps !! i = Some pd ∧ ParamDefinition_Validate pd = Some err
          ∧ ∀ j pd', j < i → ps !! j = Some pd' → ParamDefinition_Validate pd' = None.
Proof.
  induction ps as [|pd rest IH]; simpl; [done|].
  destruct (ParamDefinition_Validate pd) as [e|] eqn:Hpd.
  - intros [= <-]. exists 0, pd. repeat split; [done|]. intros j pd' Hj. lia.
  - intros Hrest. destruct (IH Hrest) as (i & p & Hi & Hp & Hbefore).
    exists (S i), p. repeat split; [done..|].
    intros [|j] pd' Hj Hlook; simpl in Hlook.
    + by injection Hlook as <-.
    + apply (Hbefore j); [lia|done].
Qed.

(** X1. [Metric.Validate] accepts exactly the metrics with a name, a query, and
    parameter definitions that each have a name and one of the three
    parameter types. *)
Theorem Metric_Validate_accepts (m : Metric) :
  Validate m = None ↔
    Name m ≠ "" ∧ Query m ≠ ""
    ∧ Forall (fun pd => pd_Name pd ≠ ""
                ∧ (pd_Type pd = ParamTypeString ∨ pd_Type pd = ParamTypeInt
                   ∨ pd_Type pd = ParamTypeFloat)) (Params m).
Proof.
  unfold Validate. case_decide as Hname; [split; [discriminate|tauto]|].
  case_decide as Hquery; [split; [discriminate|tauto]|].
  rewrite validateParams_None. split.
  - intros Hall. repeat split; try done. eapply Forall_impl; [exact Hall|].
    intros pd Hpd. apply ParamDefinition_Validate_None in Hpd as [? Hvalid].
    split; [done|]. by apply IsValid_true.
  - intros (_ & _ & Hall). eapply Forall_impl; [exact Hall|].
    intros pd [? Htype]. apply ParamDefinition_Validate_None. split; [done|].
    by apply IsValid_true.
Qed.

(** X2. The error of [Metric.Validate] is one of the four error variables of the
    package, and the checks come in a fixed order: the name, then the query,
    then the parameter definitions in their order, of which the first one
    that fails decides, its name being checked before its type. *)
Theorem Metric_Validate_error (m : Metric) (err : error) :
  Validate m = Some err →
  (Name m = "" ∧ err = ErrMetricNameEmpty)
  ∨ (Name m ≠ "" ∧ Query m = "" ∧ err = ErrMetricQueryEmpty)
  ∨ (Name m ≠ "" ∧ Query m ≠ ""
     ∧ ∃ i pd, Params m !! i = Some pd
         ∧ (∀ j pd', j < i → Params m !! j = Some pd' → ParamDefinition_Validate pd' = None)
         ∧ ((pd_Name pd = "" ∧ err = ErrParamNameEmpty)
            ∨ (pd_Name pd ≠ "" ∧ IsValid (pd_Type pd) = false ∧ err = ErrInvalidParamType))).
Proof.
  unfold Validate. case_decide as Hname; [intros [= <-]; by left|].
  case_decide as Hquery; [intros [= <-]; right; by left|].
  intros Hparams. right. right. repeat split; [done..|].
  destruct (validateParams_Some _ _ Hparams) as (i & pd & Hi & Hpd & Hbefore).
  exists i, pd. repeat split; [done..|].
  unfold ParamDefinition_Validate in Hpd. case_decide as Hpname.
  - injection Hpd as <-. by left.
  - destruct (IsValid (pd_Type pd)); [done|]. injection Hpd as <-. by right.
Qed.

Lemma findParam_found ps name pd :
  findParam ps name = (pd, true) ↔
    ∃ i, ps !! i = Some pd ∧ pd_Name pd = name
         ∧ ∀ j pd', j < i → ps !! j = Some pd' → pd_Name pd' ≠ name.
Proof.
  induction ps as [|p rest IH]; simpl.
  - split; [discriminate|]. by intros (i & Hi & _).
  - case_decide as Hp.
    + split.
      * intros [= <-]. exists 0. repeat split; [done|]. intros j pd' Hj. lia.
      * intros ([|i] & Hi & Hname & Hbefore); simpl in Hi.
        -- by injection Hi as <-.
        -- exfalso. by apply (Hbefore 0 p); [lia| |].
    + rewrite IH. split.
      * intros (i & Hi & Hname & Hbefore). exists (S i). repeat split; [done..|].
        intros [|j] pd' Hj Hlook; simpl in Hlook.
        -- by injection Hlook as <-.
        -- apply (Hbefore j); [lia|done].
      * intros ([|i] & Hi & Hname & Hbefore); simpl in Hi.
        -- injection Hi as <-. done.
        -- exists i. repeat split; [done..|]. intros j pd' Hj Hlook.
           apply (Hbefore (S j)); [lia|done].
Qed.

Lemma findParam_not_found ps name pd :
  findParam ps name = (pd, false) ↔
    pd = ParamDefinition_zero ∧ Forall (fun pd' => pd_Name pd' ≠ name) ps.
Proof.
  induction ps as [|p rest IH]; simpl.
  - split; [intros [= <-]; by split|]. by intros [-> _].
  - rewrite Forall_cons. case_decide as Hp.
    + split; [discriminate|]. by intros (_ & ? & _).
    + rewrite IH. tauto.
Qed.

(** X3. [GetParamByName] finds the first parameter definition of the name, in
    declaration order; when the metric declares no parameter of the name
    (and only then) it reports [false], with the zero [ParamDefinition]. *)
Theorem GetParamByName_first (m : Metric) (name : string) (pd : ParamDefinition) :
  (GetParamByName m name = (pd, true) ↔
     ∃ i, Params m !! i = Some pd ∧ pd_Name pd = name
          ∧ ∀ j pd', j < i → Params m !! j = Some pd' → pd_Name pd' ≠ name)
  ∧ (GetParamByName m name = (pd, false) ↔
       pd = ParamDefinition_zero ∧ Forall (fun pd' => pd_Name pd' ≠ name) (Params m)).
Proof.
  unfold GetParamByName. split; [apply findParam_found|apply findParam_not_found].
Qed.

End ModelProperties.

(** ** Package config: what an error of the catalog tells *)
Section CatalogErrors.
Import Models Config.

Lemma validateLoop_Some names metrics err :
  validateLoop names metrics = Some err →
  ∃ i m, metrics !! i = Some m
    ∧ validateLoop names (take i metrics) = None
    ∧ ((err = Errorf "duplicate metric name: %s" [Name m] None
        ∧ (seen names (Name m) ∨ ∃ j m', j < i ∧ metrics !! j = Some m' ∧ Name m' = Name m))
       ∨ (∃ cause, err = Errorf "invalid metric %s: %w" [Name m] (Some cause)
            ∧ Validate m = Some cause
            ∧ ¬ seen names (Name m)
            ∧ ∀ j m', j < i → metrics !! j = Some m' → Name m' ≠ Name m)).
Proof.
  revert names. induction metrics as [|m rest IH]; intros names; simpl; [done|].
  destruct (default false (names !! Name m)) eqn:Hseen.
  - intros [= <-]. exists 0, m. split; [done|]. split; [done|]. left. split; [done|]. by left.
  - assert (Hfresh : ¬ seen names (Name m)) by (unfold seen; congruence).
    destruct (Validate m) as [cause|] eqn:Hvalid.
    + intros [= <-]. exists 0, m. split; [done|]. split; [done|]. right. exists cause.
      split; [done|]. split; [done|]. split; [done|]. intros j m' Hj. lia.
    + intros Hrest. destruct (IH _ Hrest) as (i & m' & Hi & Hprefix & Hwhy).
      exists (S i), m'. split; [done|]. split; [simpl; by rewrite Hseen, Hvalid|].
      destruct Hwhy as [[-> Hwhy]|(cause & -> & Hc & Hnew & Hbefore)].
      * left. split; [done|]. destruct Hwhy as [Hs|(j & m'' & Hj & Hlook & Hname)].
        -- apply seen_insert in Hs as [Heq|Hs]; [|by left].
           right. exists 0, m. split; [lia|]. by split.
        -- right. exists (S j), m''. split; [lia|]. by split.
      * right. exists cause. split; [done|]. split; [done|].
        split; [intros Hs; apply Hnew, seen_insert; by right|].
        intros [|j] m'' Hj Hlook; simpl in Hlook.
        -- injection Hlook as <-. intros Hname. apply Hnew, seen_insert. by left.
        -- apply (Hbefore j); [lia|done].
Qed.

(** X4. Every error of [validateMetrics] has its reason in the sequence: "no
    metrics" for the empty sequence only; otherwise the error is about the
    first definition that either has the name of an earlier one ("duplicate
    metric name", whether or not [Validate] would accept it) or, its name
    being new, is rejected by [Validate] ("invalid metric", around the error
    of [Validate]); the definitions before it are valid and their names
    pairwise distinct. *)
Theorem validateMetrics_error (metrics : list Metric) (err : error) :
  validateMetrics metrics = Some err →
  (metrics = [] ∧ err = Errorf "no metrics defined in config" [] None)
  ∨ ∃ i m, metrics !! i = Some m
      ∧ Forall (fun m' => Validate m' = None) (take i metrics)
      ∧ NoDup (Name <$> take i metrics)
      ∧ ((err = Errorf "duplicate metric name: %s" [Name m] None
          ∧ ∃ j m', j < i ∧ metrics !! j = Some m' ∧ Name m' = Name m)
         ∨ (∃ cause, err = Errorf "invalid metric %s: %w" [Name m] (Some cause)
              ∧ Validate m = Some cause
              ∧ ∀ j m', j < i → metrics !! j = Some m' → Name m' ≠ Name m)).
Proof.
  unfold validateMetrics. case_decide as Hlen.
  - intros [= <-]. left. split; [|done]. by apply length_zero_iff_nil.
  - intros Hloop. right.
    destruct (validateLoop_Some _ _ _ Hloop) as (i & m & Hi & Hprefix & Hwhy).
    apply validateLoop_None in Hprefix as (Hvalid & Hnd & _).
    exists i, m. split; [done|]. split; [done|]. split; [done|].
    destruct Hwhy as [[-> [Hs|Hdup]]|(cause & -> & Hc & _ & Hbefore)].
    + by apply not_seen_empty in Hs.
    + by left.
    + right. by exists cause.
Qed.

(** X5. [LoadConfig] returns definitions only together with a nil error, and
    then they are the decoded ones, not empty, each valid, with pairwise
    distinct names; with an error it returns no definition. *)
Theorem LoadConfig_sound DecodeFile path (metrics : list Metric) (err : option error) :
  LoadConfig DecodeFile path = (metrics, err) →
  match err with
  | None =>
      DecodeFile path = ({| Metrics := metrics |}, None)
      ∧ metrics ≠ [] ∧ NoDup (Name <$> metrics)
      ∧ Forall (fun m => Validate m = None) metrics
  | Some _ => metrics = []
  end.
Proof.
  unfold LoadConfig. destruct (DecodeFile path) as [[decoded] [e|]]; [by intros [= <- <-]|].
  simpl. destruct (validateMetrics decoded) as [e|] eqn:Hv; intros [= <- <-]; [done|].
  apply validateMetrics_None in Hv as (? & ? & ?). by repeat split.
Qed.

End CatalogErrors.

(** ** Package service: the map of metrics *)
Section RegistryProperties.
Import Models Repository Service.
Context {S : Type}.

Lemma foldl_insert_lookup (metricsList : list Metric) (acc : gmap string Metric) name :
  foldl (fun metricsMap m => <[Name m := m]> metricsMap) acc metricsList !! name
  = match last (filter (fun m => Name m = name) metricsList) with
    | Some m => Some m
    | None => acc !! name
    end.
Proof.
  revert acc. induction metricsList as [|m rest IH]; intros acc; simpl; [done|].
  rewrite IH. rewrite filter_cons. case_decide as Hm.
  - destruct (filter _ rest) as [|m' rest'] eqn:Hf; simpl.
    + subst name. by rewrite lookup_insert_eq.
    + by destruct (last (m' :: rest')) eqn:Hl; [|by apply last_None in Hl].
  - destruct (last _); [done|]. by rewrite lookup_insert_ne.
Qed.

(** Among definitions with pairwise distinct names, the last one of a name
    is the only one. *)
Lemma last_filter_distinct (metricsList : list Metric) name (m : Metric) :
  NoDup (Name <$> metricsList) →
  last (filter (fun m => Name m = name) metricsList) = Some m ↔
    m ∈ metricsList ∧ Name m = name.
Proof.
  intros Hnd. induction metricsList as [|m' rest IH]; simpl.
  - split; [done|]. intros [Hin _]. by apply elem_of_nil in Hin.
  - apply NoDup_cons in Hnd as [Hnotin Hnd]. rewrite filter_cons. case_decide as Hm'.
    + assert (Hrest : ∀ m'', m'' ∈ rest → Name m'' ≠ name).
      { intros m'' Hin Hname. apply Hnotin. rewrite Hm', <- Hname.
        apply list_elem_of_fmap. eauto. }
      assert (Hnone : filter (fun m => Name m = name) rest = []).
      { destruct (filter (fun m => Name m = name) rest) as [|m'' l] eqn:Hf; [done|].
        assert (Hin : m'' ∈ filter (fun m => Name m = name) rest)
          by (rewrite Hf; apply list_elem_of_here).
        apply list_elem_of_filter in Hin as [Hname Hin]. by apply Hrest in Hin. }
      rewrite Hnone. simpl. split.
      * intros [= <-]. split; [apply list_elem_of_here|done].
      * intros [Hin Hname]. apply elem_of_cons in Hin as [->|Hin]; [done|].
        by apply Hrest in Hin.
    + rewrite (IH Hnd). split.
      * intros [Hin Hname]. split; [by apply list_elem_of_further|done].
      * intros [Hin Hname]. apply elem_of_cons in Hin as [->|Hin]; [done|]. by split.
Qed.

Lemma registry_lookup (repo : Repository S) (metricsList : list Metric) name :
  metrics (NewMetricService repo metricsList) !! name
  = last (filter (fun m => Name m = name) metricsList).
Proof.
  unfold NewMetricService. simpl. rewrite foldl_insert_lookup, lookup_empty.
  by destruct (last _).
Qed.

(** X6. [NewMetricService] registers each definition under its name, a later
    definition replacing an earlier one of the same name: a name is looked
    up to the last definition of the list that has it, and to nothing when
    no definition has it. *)
Theorem NewMetricService_lookup (repo : Repository S) (metricsList : list Metric) name :
  (∀ m, metrics (NewMetricService repo metricsList) !! name = Some m ↔
        last (filter (fun m => Name m = name) metricsList) = Some m)
  ∧ (metrics (NewMetricService repo metricsList) !! name = None ↔
       Forall (fun m => Name m ≠ name) metricsList).
Proof.
  rewrite registry_lookup. split; [done|].
  rewrite last_None. split.
  - intros Hnil. apply Forall_forall. intros m Hin Hname.
    assert (Hm : m ∈ filter (fun m => Name m = name) metricsList)
      by by apply list_elem_of_filter.
    rewrite Hnil in Hm. by apply elem_of_nil in Hm.
  - intros Hall. destruct (filter _ metricsList) as [|m l] eqn:Hf; [done|].
    assert (Hm : m ∈ filter (fun m => Name m = name) metricsList)
      by (rewrite Hf; apply list_elem_of_here).
    apply list_elem_of_filter in Hm as [Hname Hin].
    rewrite Forall_forall in Hall. by apply Hall in Hin.
Qed.

(** X7. When the names of the definitions are pairwise distinct, as they are
    after [validateMetrics], a name is looked up to a definition exactly
    when the list has this definition and it has this name. *)
Theorem NewMetricService_lookup_distinct (repo : Repository S) (metricsList : list Metric)
    name (m : Metric) :
  NoDup (Name <$> metricsList) →
  metrics (NewMetricService repo metricsList) !! name = Some m ↔
    m ∈ metricsList ∧ Name m = name.
Proof.
  intros Hnd. rewrite registry_lookup. by apply last_filter_distinct.
Qed.

End RegistryProperties.

Section NamesProperties.
Import Models Repository Service.
Context {S : Type}.

Lemma GetMetricNames_fst (ms : MetricService S) order :
  GetMetricNames ms order = order.*1.
Proof.
  unfold GetMetricNames.
  assert (Hgen : ∀ names : list string,
            foldl (fun names entry => names ++ [entry.1])%list names order
            = (names ++ order.*1)%list).
  { induction order as [|entry rest IH]; intros names; simpl.
    - by rewrite app_nil_r.
    - rewrite IH. by rewrite <- app_assoc. }
  apply Hgen.
Qed.

Lemma GetMetricNames_perm (ms : MetricService S) order :
  rangeOrder ms order → GetMetricNames ms order ≡ₚ (map_to_list (metrics ms)).*1.
Proof. unfold rangeOrder. intros Hperm. by rewrite GetMetricNames_fst, Hperm. Qed.

Lemma GetMetricNames_NoDup (ms : MetricService S) order :
  rangeOrder ms order → NoDup (GetMetricNames ms order).
Proof.
  intros Horder. rewrite (GetMetricNames_perm _ _ Horder). apply NoDup_fst_map_to_list.
Qed.

Lemma GetMetricNames_elem (ms : MetricService S) order :
  rangeOrder ms order →
  ∀ name, name ∈ GetMetricNames ms order ↔ is_Some (metrics ms !! name).
Proof.
  intros Horder name. rewrite (GetMetricNames_perm _ _ Horder), list_elem_of_fmap. split.
  - intros ([name' m] & -> & Hin). apply elem_of_map_to_list in Hin. simpl. eauto.
  - intros [m Hm]. exists (name, m). split; [done|]. by apply elem_of_map_to_list.
Qed.

(** X8. Whatever the order in which the [range] visits the map,
    [GetMetricNames] returns every registered name once and no other name:
    as many names as the map has entries. *)
Theorem GetMetricNames_registered (ms : MetricService S) order :
  rangeOrder ms order →
  NoDup (GetMetricNames ms order)
  ∧ (∀ name, name ∈ GetMetricNames ms order ↔ is_Some (metrics ms !! name))
  ∧ length (GetMetricNames ms order) = size (metrics ms).
Proof.
  intros Horder. split; [by apply GetMetricNames_NoDup|].
  split; [by apply GetMetricNames_elem|].
  rewrite (GetMetricNames_perm _ _ Horder), length_fmap. apply length_map_to_list.
Qed.

(** X9. For a service made from definitions with pairwise distinct names,
    [GetMetricNames] returns the names of the definitions, in some order. *)
Theorem GetMetricNames_of_list (repo : Repository S) (metricsList : list Metric) order :
  NoDup (Name <$> metricsList) →
  rangeOrder (NewMetricService repo metricsList) order →
  GetMetricNames (NewMetricService repo metricsList) order ≡ₚ Name <$> metricsList.
Proof.
  intros Hnd Horder.
  apply NoDup_Permutation; [by apply GetMetricNames_NoDup|done|].
  intros name. rewrite (GetMetricNames_elem _ _ Horder), list_elem_of_fmap.
  unfold is_Some. setoid_rewrite registry_lookup. split.
  - intros [m Hm]. apply last_filter_distinct in Hm as [? <-]; [|done]. eauto.
  - intros (m & -> & Hm). exists m. by apply last_filter_distinct.
Qed.

End NamesProperties.

(** ** Package service: parameter preparation *)
Section PrepareProperties.
Import Models Strconv Repository Service.
Context `{FloatParser}.

(** X10. A successful [convertParamValue] yields the dynamic type that the
    parameter type names, a string, an [int64] or a [float64], so only for
    one of the three valid parameter types; a failed one yields nil, and its
    error names the raw value (or the parameter type, when that is none of
    the three). *)
Theorem convertParamValue_typed (value : string) (paramType : ParamType) v err :
  convertParamValue value paramType = (v, err) →
  match err with
  | None =>
      IsValid paramType = true
      ∧ ((paramType = ParamTypeString ∧ v = str value)
         ∨ (paramType = ParamTypeInt ∧ ∃ n, v = int64 n ∧ ParseInt value = (n, None))
         ∨ (paramType = ParamTypeFloat ∧ ∃ f, v = float64 f ∧ ParseFloat value = (f, None)))
  | Some e =>
      v = nil_any
      ∧ ((paramType = ParamTypeInt
          ∧ ∃ cause, e = Errorf "invalid integer value %q: %w" [value] (Some cause))
         ∨ (paramType = ParamTypeFloat
            ∧ ∃ cause, e = Errorf "invalid float value %q: %w" [value] (Some cause))
         ∨ (IsValid paramType = false
            ∧ e = Errorf "unsupported parameter type: %s" [paramType] None))
  end.
Proof.
  unfold convertParamValue, IsValid.
  case_decide as Hs; [intros [= <- <-]; split; [done|]; by left|].
  case_decide as Hi.
  { destruct (ParseInt value) as [n [cause|]] eqn:Hparse; intros [= <- <-].
    - split; [done|]. left. split; [done|]. by exists cause.
    - split; [done|]. right. left. split; [done|]. by exists n. }
  case_decide as Hf.
  { destruct (ParseFloat value) as [f [cause|]] eqn:Hparse; intros [= <- <-].
    - split; [done|]. right. left. split; [done|]. by exists cause.
    - split; [done|]. right. right. split; [done|]. by exists f. }
  intros [= <- <-]. split; [done|]. right. by right.
Qed.

Lemma paramInput_exists (params : gmap string string) paramDef :
  (if negb (bool_decide (is_Some (params !! pd_Name paramDef)))
   then "" else default "" (params !! pd_Name paramDef))
  = paramInput params paramDef.
Proof. unfold paramInput. by destruct (params !! pd_Name paramDef). Qed.

Lemma required_missing (params : gmap string string) paramDef :
  pd_Required paramDef && negb (bool_decide (is_Some (params !! pd_Name paramDef))) = false
  ↔ (pd_Required paramDef = true → is_Some (params !! pd_Name paramDef)).
Proof.
  destruct (pd_Required paramDef); simpl.
  - rewrite negb_false_iff, bool_decide_eq_true. tauto.
  - split; [discriminate|done].
Qed.

(** One turn of the loop, on a parameter definition that is ready. *)
Lemma prepareLoop_ready metric params i paramDef rest args :
  paramReady params paramDef →
  prepareLoop metric params i (paramDef :: rest) args
  = prepareLoop metric params (S i) rest
      (<[i := (convertParamValue (paramInput params paramDef) (pd_Type paramDef)).1]> args).
Proof.
  intros [Hreq Hconv]. simpl. apply required_missing in Hreq. rewrite Hreq.
  rewrite paramInput_exists.
  destruct (convertParamValue _ _) as [v err]. simpl in Hconv. by subst err.
Qed.

(** The loop stops at a parameter definition that is not ready. *)
Lemma prepareLoop_not_ready metric params i paramDef rest args :
  ¬ paramReady params paramDef →
  ∃ e, prepareLoop metric params i (paramDef :: rest) args = ([], Some e)
       ∧ ((pd_Required paramDef = true ∧ params !! pd_Name paramDef = None
           ∧ e = Errorf "metric %q: required parameter %q is missing"
                   [Name metric; pd_Name paramDef] None)
          ∨ ((pd_Required paramDef = true → is_Some (params !! pd_Name paramDef))
             ∧ ∃ cause,
                 (convertParamValue (paramInput params paramDef) (pd_Type paramDef)).2
                 = Some cause
                 ∧ e = Errorf "metric %q: parameter %q: %w"
                         [Name metric; pd_Name paramDef] (Some cause))).
Proof.
  intros Hnot. simpl.
  destruct (pd_Required paramDef && _) eqn:Hreq.
  - eexists. split; [done|]. left. apply andb_true_iff in Hreq as [Hr Hmiss].
    apply negb_true_iff, bool_decide_eq_false in Hmiss.
    split; [done|]. split; [|done]. by apply eq_None_not_Some.
  - rewrite paramInput_exists.
    destruct (convertParamValue _ _) as [v [cause|]] eqn:Hconv.
    + eexists. split; [done|]. right. split; [by apply required_missing|]. by exists cause.
    + exfalso. apply Hnot. split; [by apply required_missing|]. by rewrite Hconv.
Qed.

Lemma paramReady_dec (params : gmap string string) paramDef : Decision (paramReady params paramDef).
Proof.
  unfold paramReady.
  destruct (convertParamValue (paramInput params paramDef) (pd_Type paramDef)) as [v [e|]];
    simpl.
  - right. by intros [_ ?].
  - destruct (pd_Required paramDef).
    + destruct (params !! pd_Name paramDef) as [x|].
      * left. split; [eauto|done].
      * right. intros [Hreq _]. by destruct (Hreq eq_refl).
    + left. by split.
Qed.

Lemma prepareLoop_success metric (params : gmap string string)
    (defs : list ParamDefinition) :
  ∀ i (args out : list any),
    (i + length defs ≤ length args)%nat →
    prepareLoop metric params i defs args = (out, None) →
    Forall (paramReady params) defs
    ∧ out = (take i args
             ++ ((fun p => (convertParamValue (paramInput params p) (pd_Type p)).1) <$> defs)
             ++ drop (i + length defs)%nat args)%list.
Proof.
  induction defs as [|paramDef rest IH]; intros i args out Hlen;
    change (length (paramDef :: rest)) with (Datatypes.S (length rest)) in * || idtac.
  - simpl. intros [= <-]. split; [constructor|]. rewrite Nat.add_0_r. simpl.
    by rewrite take_drop.
  - destruct (paramReady_dec params paramDef) as [Hready|Hnot].
    + rewrite (prepareLoop_ready _ _ _ _ _ _ Hready). intros Hrest.
      apply IH in Hrest as [Hall ->]; [|rewrite length_insert; lia].
      split; [by constructor|].
      rewrite (take_S_r _ _ ((convertParamValue (paramInput params paramDef)
                                (pd_Type paramDef)).1))
        by (apply list_lookup_insert_eq; lia).
      rewrite take_insert_ge by lia. rewrite drop_insert_lt by lia.
      rewrite <- app_assoc. simpl.
      by replace (i + Datatypes.S (length rest))%nat with (Datatypes.S (i + length rest)) by lia.
    + destruct (prepareLoop_not_ready metric params i paramDef rest args Hnot)
        as (e & -> & _). discriminate.
Qed.

Lemma prepareLoop_all_ready metric params defs :
  ∀ i args, Forall (paramReady params) defs →
            (prepareLoop metric params i defs args).2 = None.
Proof.
  induction defs as [|paramDef rest IH]; intros i args Hall; [done|].
  apply Forall_cons in Hall as [Hready Hall].
  rewrite (prepareLoop_ready _ _ _ _ _ _ Hready). by apply IH.
Qed.

Lemma prepareLoop_failure metric params defs :
  ∀ i args out e,
    prepareLoop metric params i defs args = (out, Some e) →
    out = []
    ∧ ∃ k paramDef,
        defs !! k = Some paramDef
        ∧ Forall (paramReady params) (take k defs)
        ∧ ((pd_Required paramDef = true ∧ params !! pd_Name paramDef = None
            ∧ e = Errorf "metric %q: required parameter %q is missing"
                    [Name metric; pd_Name paramDef] None)
           ∨ ((pd_Required paramDef = true → is_Some (params !! pd_Name paramDef))
              ∧ ∃ cause,
                  (convertParamValue (paramInput params paramDef) (pd_Type paramDef)).2
                  = Some cause
                  ∧ e = Errorf "metric %q: parameter %q: %w"
                          [Name metric; pd_Name paramDef] (Some cause))).
Proof.
  induction defs as [|paramDef rest IH]; intros i args out e; [done|].
  destruct (paramReady_dec params paramDef) as [Hready|Hnot].
  - rewrite (prepareLoop_ready _ _ _ _ _ _ Hready). intros Hrest.
    apply IH in Hrest as (-> & k & p & Hk & Hbefore & Hwhy). split; [done|].
    exists (S k), p. split; [done|]. split; [by constructor|done].
  - destruct (prepareLoop_not_ready metric params i paramDef rest args Hnot)
      as (e' & -> & Hwhy).
    intros [= <- <-]. split; [done|]. exists 0, paramDef. split; [done|].
    split; [constructor|done].
Qed.

End PrepareProperties.

Section PrepareTheorems.
Import Models Strconv Repository Service.
Context `{FloatParser}.

(** X11. [prepareParams] succeeds exactly when every declared parameter is ready
    (there if required, and convertible), and then the arguments are the
    converted inputs of the declared parameters, one per declaration and in
    the order of the declarations. *)
Theorem prepareParams_positional (metric : Metric) (params : gmap string string)
    (args : list any) :
  prepareParams metric params = (args, None) ↔
    Forall (paramReady params) (Params metric)
    ∧ args = (fun p => (convertParamValue (paramInput params p) (pd_Type p)).1)
             <$> Params metric.
Proof.
  unfold prepareParams. case_decide as Hlen.
  - apply length_zero_iff_nil in Hlen. rewrite Hlen. simpl. split.
    + intros [= <-]. split; [constructor|done].
    + by intros [_ ->].
  - assert (Hformula : ∀ out,
              prepareLoop metric params 0 (Params metric)
                (replicate (length (Params metric)) nil_any) = (out, None) →
              Forall (paramReady params) (Params metric)
              ∧ out = (fun p => (convertParamValue (paramInput params p) (pd_Type p)).1)
                      <$> Params metric).
    { intros out Hloop. apply prepareLoop_success in Hloop as [Hall ->].
      - split; [done|]. simpl. rewrite drop_ge by (rewrite length_replicate; lia).
        by rewrite app_nil_r.
      - rewrite length_replicate. simpl. lia. }
    split; [apply Hformula|]. intros [Hall ->].
    pose proof (prepareLoop_all_ready metric params (Params metric) 0
                  (replicate (length (Params metric)) nil_any) Hall) as Hnone.
    destruct (prepareLoop _ _ _ _ _) as [out err] eqn:Hloop. simpl in Hnone. subst err.
    destruct (Hformula out eq_refl) as [_ Heq]. by rewrite <- Heq.
Qed.

(** X12. A failed [prepareParams] returns no argument, and its error is about the
    first declared parameter that is not ready: "required parameter is
    missing" when this one is required and not among the inputs, and
    otherwise the error of its conversion, wrapped with the names of the
    metric and of the parameter. *)
Theorem prepareParams_failure (metric : Metric) (params : gmap string string)
    (args : list any) (e : error) :
  prepareParams metric params = (args, Some e) →
  args = []
  ∧ ∃ k paramDef,
      Params metric !! k = Some paramDef
      ∧ Forall (paramReady params) (take k (Params metric))
      ∧ ((pd_Required paramDef = true ∧ params !! pd_Name paramDef = None
          ∧ e = Errorf "metric %q: required parameter %q is missing"
                  [Name metric; pd_Name paramDef] None)
         ∨ ((pd_Required paramDef = true → is_Some (params !! pd_Name paramDef))
            ∧ ∃ cause,
                (convertParamValue (paramInput params paramDef) (pd_Type paramDef)).2
                = Some cause
                ∧ e = Errorf "metric %q: parameter %q: %w"
                        [Name metric; pd_Name paramDef] (Some cause))).
Proof.
  unfold prepareParams. case_decide as Hlen; [done|]. apply prepareLoop_failure.
Qed.

(** X13. For a metric that [Validate] accepts, the conversion of a parameter
    never fails for its type: the error of [prepareParams] is "required
    parameter is missing", or wraps "invalid integer value" or "invalid
    float value" for the input of an [int] or [float] parameter. *)
Theorem prepareParams_validated (metric : Metric) (params : gmap string string)
    (args : list any) (e : error) :
  Validate metric = None →
  prepareParams metric params = (args, Some e) →
  ∃ paramDef, paramDef ∈ Params metric
    ∧ (e = Errorf "metric %q: required parameter %q is missing"
             [Name metric; pd_Name paramDef] None
       ∨ (∃ cause, pd_Type paramDef = ParamTypeInt
            ∧ e = Errorf "metric %q: parameter %q: %w" [Name metric; pd_Name paramDef]
                    (Some (Errorf "invalid integer value %q: %w"
                             [paramInput params paramDef] (Some cause))))
       ∨ (∃ cause, pd_Type paramDef = ParamTypeFloat
            ∧ e = Errorf "metric %q: parameter %q: %w" [Name metric; pd_Name paramDef]
                    (Some (Errorf "invalid float value %q: %w"
                             [paramInput params paramDef] (Some cause))))).
Proof.
  intros Hvalid. unfold prepareParams. case_decide as Hlen; [done|]. intros Hloop.
  apply prepareLoop_failure in Hloop as (_ & k & paramDef & Hk & _ & Hwhy).
  assert (Hin : paramDef ∈ Params metric) by (apply list_elem_of_lookup; eauto).
  exists paramDef. split; [done|].
  destruct Hwhy as [(_ & _ & ->)|(_ & cause & Hconv & ->)]; [by left|]. right.
  assert (Htype : IsValid (pd_Type paramDef) = true).
  { unfold Validate in Hvalid. repeat case_decide; try done.
    apply validateParams_None in Hvalid. rewrite Forall_forall in Hvalid.
    by apply Hvalid, ParamDefinition_Validate_None in Hin as [_ ?]. }
  apply IsValid_true in Htype as [Ht|[Ht|Ht]]; rewrite Ht in Hconv;
    unfold convertParamValue in Hconv; simpl in Hconv.
  - done.
  - left. destruct (ParseInt _) as [n [c|]]; [|done]. injection Hconv as <-. eauto.
  - right. destruct (ParseFloat _) as [f [c|]]; [|done]. injection Hconv as <-. eauto.
Qed.

End PrepareTheorems.

(** ** Package service: one metric *)
Section GetMetricTheorems.
Import Models Strconv Repository Service.
Context `{FloatParser} {S : Type}.

(** The calls that [GetMetric] adds to the record: none or one, made with the
    context given and with the query of the registered metric; one when
    there is no error. *)
Lemma GetMetric_calls (ms : MetricService S) ctx name params (w w' : World S) rs err :
  GetMetric ms ctx name params w = ((rs, err), w') →
  ∃ tail, calls w' = (calls w ++ tail)%list
    ∧ (length tail ≤ 1)%nat
    ∧ (err = None → length tail = 1%nat)
    ∧ (tail = [] → w' = w)
    ∧ Forall (fun c => callCtx c = ctx
                ∧ ∃ metric, metrics ms !! name = Some metric
                            ∧ callQuery c = Query metric
                            ∧ prepareParams metric params
                              = (match c with
                                 | CallQuerySingleValue _ _ args => args
                                 | CallQueryMultiRow _ _ args => args
                                 end, None)
                            ∧ MultiRow metric
                              = match c with
                                | CallQuerySingleValue _ _ _ => false
                                | CallQueryMultiRow _ _ _ => true
                                end) tail.
Proof.
  unfold GetMetric.
  destruct (metrics ms !! name) as [metric|] eqn:Hlookup.
  2:{ intros [= <- <- <-]. exists []. rewrite app_nil_r. repeat split; [simpl; lia|done|done]. }
  destruct (prepareParams metric params) as [args [e|]] eqn:Hprep.
  { intros [= <- <- <-]. exists []. rewrite app_nil_r. repeat split; [simpl; lia|done|done]. }
  destruct (MultiRow metric) eqn:Hmulti.
  - destruct (QueryMultiRow _ _ _ _ _) as [[rows [e|]] s]; intros [= <- <- <-];
      (eexists [_]; simpl; split; [done|]; split; [lia|]; split; [done|]; split; [done|];
       constructor; [|constructor]; split; [done|]; by exists metric).
  - destruct (QuerySingleValue _ _ _ _ _) as [[result [e|]] s]; intros [= <- <- <-];
      (eexists [_]; simpl; split; [done|]; split; [lia|]; split; [done|]; split; [done|];
       constructor; [|constructor]; split; [done|]; by exists metric).
Qed.

(** X14. [GetMetric] calls the repository at most once, and once when it
    succeeds. The call has the context given, the query text of the
    registered metric (no input reaches the query text), the arguments of
    [prepareParams], and is [QueryMultiRow] exactly for a multi-row metric.
    Without a call the store and the record of calls are as before. *)
Theorem GetMetric_one_call (ms : MetricService S) ctx name params (w w' : World S) rs err :
  GetMetric ms ctx name params w = ((rs, err), w') →
  (is_Some err ∧ w' = w)
  ∨ ∃ metric args,
      metrics ms !! name = Some metric
      ∧ prepareParams metric params = (args, None)
      ∧ calls w'
        = (calls w ++ [ if MultiRow metric
                        then CallQueryMultiRow ctx (Query metric) args
                        else CallQuerySingleValue ctx (Query metric) args ])%list.
Proof.
  intros Hget. destruct (GetMetric_calls _ _ _ _ _ _ _ _ Hget)
    as (tail & Hcalls & Hlen & Hone & Hnone & Hall).
  destruct tail as [|c [|c' tail]]; [| |simpl in Hlen; lia].
  - left. split; [|by apply Hnone]. destruct err; [eauto|]. by specialize (Hone eq_refl).
  - right. apply Forall_singleton in Hall as (Hctx & metric & Hlookup & Hquery & Hprep & Hm).
    exists metric. destruct c as [c q args|c q args]; simpl in *; subst;
      exists args; rewrite Hm; by repeat split.
Qed.

(** X15. Every error of [GetMetric] comes with no result and is one of three:
    "not found" for a name that is not registered, the error of
    [prepareParams] (no call is made in these two cases), or the error that
    the one repository call returned, wrapped with the name of the metric.
    In the third case the call is [QueryMultiRow] for a multi-row metric and
    [QuerySingleValue] otherwise, on the store as it was, with the query of
    the metric and the arguments of [prepareParams]; the store is left as
    the call left it and the call is the one entry added to the record. *)
Theorem GetMetric_error (ms : MetricService S) ctx name params (w w' : World S) rs e :
  GetMetric ms ctx name params w = ((rs, Some e), w') →
  rs = []
  ∧ ((metrics ms !! name = None ∧ e = Errorf "metric %q not found" [name] None ∧ w' = w)
     ∨ (∃ metric args, metrics ms !! name = Some metric
          ∧ prepareParams metric params = (args, Some e) ∧ w' = w)
     ∨ (∃ metric args cause,
          metrics ms !! name = Some metric
          ∧ prepareParams metric params = (args, None)
          ∧ (if MultiRow metric
             then ∃ rows, QueryMultiRow (repo ms) ctx (Query metric) args (store w)
                          = ((rows, Some cause), store w')
             else ∃ result, QuerySingleValue (repo ms) ctx (Query metric) args (store w)
                            = ((result, Some cause), store w'))
          ∧ e = Errorf "metric %q failed: %w" [Name metric] (Some cause)
          ∧ calls w'
            = (calls w ++ [ if MultiRow metric
                            then CallQueryMultiRow ctx (Query metric) args
                            else CallQuerySingleValue ctx (Query metric) args ])%list)).
Proof.
  unfold GetMetric.
  destruct (metrics ms !! name) as [metric|] eqn:Hlookup.
  2:{ intros [= <- <- <-]. split; [done|]. by left. }
  destruct (prepareParams metric params) as [args [e'|]] eqn:Hprep.
  { intros [= <- <- <-]. split; [done|]. right. left. by exists metric, args. }
  destruct (MultiRow metric) eqn:Hmulti.
  - destruct (QueryMultiRow _ _ _ _ _) as [[rows [cause|]] s] eqn:Hcall; intros [= <- <- <-].
    split; [done|]. right. right. exists metric, args, cause. rewrite Hmulti.
    split; [done|]. split; [done|]. split; [by exists rows|]. by split.
  - destruct (QuerySingleValue _ _ _ _ _) as [[result [cause|]] s] eqn:Hcall; intros [= <- <- <-].
    split; [done|]. right. right. exists metric, args, cause. rewrite Hmulti.
    split; [done|]. split; [done|]. split; [by exists result|]. by split.
Qed.

End GetMetricTheorems.

(** ** Package service: the error group of [GetMetrics] *)
Section GroupTheorems.
Import Models Strconv Repository Service.
Context `{FloatParser} {S : Type}.
Variables (ms : MetricService S) (ctx : Context).
Variables (names : list string) (params : gmap string string).

Lemma egCtx_no_error (g : Group S) : egErr g = None → egCtx ctx g = ctx.
Proof. unfold egCtx. intros ->. destruct ctx as [d]. simpl. by rewrite orb_false_r. Qed.

Lemma egCtx_error (g : Group S) e : egErr g = Some e → Done (egCtx ctx g) = true.
Proof. unfold egCtx. intros ->. simpl. apply orb_true_r. Qed.

Lemma step_egErr_kept (g g' : Group S) ev e :
  step ms ctx names params g ev = Some g' → egErr g = Some e → egErr g' = Some e.
Proof.
  intros Hstep He. destruct ev as [i|i]; simpl in Hstep.
  - destruct (names !! i); [|done]. destruct (outcome g !! i); [done|].
    destruct (GetMetric _ _ _ _ _) as [r w]. by injection Hstep as <-.
  - destruct (outcome g !! i) as [[rs err]|]; [|done]. case_bool_decide; [done|].
    destruct err; injection Hstep as <-; simpl; by rewrite He.
Qed.

Lemma runGroup_egErr_kept sched (g g' : Group S) e :
  runGroup ms ctx names params g sched = Some g' → egErr g = Some e → egErr g' = Some e.
Proof.
  revert g. induction sched as [|ev rest IH]; intros g; simpl.
  - by intros [= <-].
  - destruct (step ms ctx names params g ev) as [g1|] eqn:Hstep; [|done].
    intros Hrun He. apply (IH g1 Hrun). by eapply step_egErr_kept.
Qed.

Lemma runGroup_app s1 s2 (g : Group S) :
  runGroup ms ctx names params g (s1 ++ s2)
  = match runGroup ms ctx names params g s1 with
    | Some g1 => runGroup ms ctx names params g1 s2
    | None => None
    end.
Proof.
  revert g. induction s1 as [|ev rest IH]; intros g; simpl; [done|].
  by destruct (step ms ctx names params g ev).
Qed.

(** The calls that one event adds to the record: those of the [GetMetric]
    call of a goroutine that runs, made with the context of the group. *)
Lemma step_calls (g g' : Group S) ev :
  step ms ctx names params g ev = Some g' →
  ∃ tail, calls (world g') = (calls (world g) ++ tail)%list
          ∧ Forall (fun c => callCtx c = egCtx ctx g) tail.
Proof.
  destruct ev as [i|i]; simpl.
  - destruct (names !! i) as [name|]; [|done]. destruct (outcome g !! i); [done|].
    destruct (GetMetric ms (egCtx ctx g) name params (world g)) as [[rs err] w] eqn:Hget.
    intros [= <-]. simpl.
    destruct (GetMetric_calls _ _ _ _ _ _ _ _ Hget) as (tail & Hcalls & _ & _ & _ & Hall).
    exists tail. split; [done|]. eapply Forall_impl; [exact Hall|]. by intros c [? _].
  - destruct (outcome g !! i) as [[rs err]|]; [|done]. case_bool_decide; [done|].
    intros Hstep. exists []. rewrite app_nil_r.
    destruct err; injection Hstep as <-; by split.
Qed.

(** X20. Once a goroutine has returned an error, the error group keeps this
    error: whatever the other goroutines do afterwards, it is the error that
    [GetMetrics] returns, with no result. *)
Theorem GetMetrics_first_error (w : World S) s1 s2 (g1 : Group S) e out :
  runGroup ms ctx names params (newGroup names w) s1 = Some g1 →
  egErr g1 = Some e →
  GetMetrics ms ctx names params w (s1 ++ s2) = Some out →
  out.1 = ([], Some e).
Proof.
  intros Hrun He. unfold GetMetrics, goroutines.
  change {| world := w; outcome := ∅; returned := ∅;
            results := replicate (length names) MetricResult_zero; egErr := None |}
    with (newGroup names w).
  rewrite runGroup_app, Hrun.
  destruct (runGroup ms ctx names params g1 s2) as [g2|] eqn:Hrest; [|done].
  destruct (forallb _ _); [|done].
  rewrite (runGroup_egErr_kept _ _ _ _ Hrest He). by intros [= <-].
Qed.

(** X21. Once a goroutine has returned an error, every call of the repository
    that a goroutine makes afterwards is made with a cancelled context. *)
Theorem GetMetrics_cancels_siblings sched (g1 g2 : Group S) e :
  egErr g1 = Some e →
  runGroup ms ctx names params g1 sched = Some g2 →
  ∃ tail, calls (world g2) = (calls (world g1) ++ tail)%list
          ∧ Forall (fun c => Done (callCtx c) = true) tail.
Proof.
  revert g1. induction sched as [|ev rest IH]; intros g1 He; simpl.
  - intros [= <-]. exists []. by rewrite app_nil_r.
  - destruct (step ms ctx names params g1 ev) as [g|] eqn:Hstep; [|done]. intros Hrun.
    destruct (step_calls _ _ _ Hstep) as (t1 & Hc1 & Hall1).
    destruct (IH g (step_egErr_kept _ _ _ _ Hstep He) Hrun) as (t2 & Hc2 & Hall2).
    exists (t1 ++ t2)%list. split; [by rewrite Hc2, Hc1, app_assoc|].
    apply Forall_app. split; [|done]. eapply Forall_impl; [exact Hall1|].
    intros c ->. by eapply egCtx_error.
Qed.

Lemma runGroup_calls_uncancelled sched (g g' : Group S) :
  runGroup ms ctx names params g sched = Some g' →
  egErr g' = None →
  ∃ tail, calls (world g') = (calls (world g) ++ tail)%list
          ∧ Forall (fun c => callCtx c = ctx) tail.
Proof.
  revert g. induction sched as [|ev rest IH]; intros g; simpl.
  - intros [= <-] _. exists []. by rewrite app_nil_r.
  - destruct (step ms ctx names params g ev) as [g1|] eqn:Hstep; [|done].
    intros Hrun Hnone. destruct (IH g1 Hrun Hnone) as (t2 & Hc2 & Hall2).
    destruct (step_calls _ _ _ Hstep) as (t1 & Hc1 & Hall1).
    assert (Hg : egErr g = None).
    { destruct (egErr g) as [e|] eqn:He; [|done].
      pose proof (step_egErr_kept _ _ _ _ Hstep He) as He1.
      pose proof (runGroup_egErr_kept _ _ _ _ Hrun He1). congruence. }
    exists (t1 ++ t2)%list. split; [by rewrite Hc2, Hc1, app_assoc|].
    apply Forall_app. split; [|done]. eapply Forall_impl; [exact Hall1|].
    intros c ->. by apply egCtx_no_error.
Qed.

(** X22. When [GetMetrics] returns no error, every call of the repository that
    its goroutines made was made with the context of the caller: the group
    cancelled none of them. *)
Theorem GetMetrics_success_context (w w' : World S) sched rs :
  GetMetrics ms ctx names params w sched = Some ((rs, None), w') →
  ∃ tail, calls w' = (calls w ++ tail)%list ∧ Forall (fun c => callCtx c = ctx) tail.
Proof.
  unfold GetMetrics, goroutines.
  destruct (runGroup _ _ _ _ _ sched) as [g|] eqn:Hrun; [|done].
  destruct (forallb _ _); [|done].
  destruct (egErr g) eqn:He; [done|]. intros [= <- <-].
  by apply (runGroup_calls_uncancelled _ _ _ Hrun He).
Qed.

End GroupTheorems.

Section BatchCounting.
Import Models Strconv Repository Service.
Context `{FloatParser} {S : Type}.
Variables (ms : MetricService S) (ctx : Context).
Variables (names : list string) (params : gmap string string).

Lemma CallsInv_init (w : World S) : CallsInv names w (newGroup names w).
Proof.
  constructor; simpl.
  - exists []. rewrite app_nil_r. by rewrite map_size_empty.
  - intros i [r Hr]. by rewrite lookup_empty in Hr.
  - intros i Hi. by apply not_elem_of_empty in Hi.
  - intros _ i r Hi. by apply not_elem_of_empty in Hi.
Qed.

Lemma step_CallsInv (w : World S) (g g' : Group S) ev :
  CallsInv names w g → step ms ctx names params g ev = Some g' → CallsInv names w g'.
Proof.
  intros [(tail & Hcalls & Hle & Hexact) Hbound Hret Hnoerr].
  destruct ev as [i|i]; simpl.
  - destruct (names !! i) as [name|] eqn:Hname; [|done].
    destruct (outcome g !! i) as [r|] eqn:Hnone; [done|].
    destruct (GetMetric ms (egCtx ctx g) name params (world g)) as [[rs err] w1] eqn:Hget.
    intros [= <-].
    destruct (GetMetric_calls _ _ _ _ _ _ _ _ Hget) as (t & Hc & Hlen & Hone & _ & _).
    assert (Hother : ∀ j, j ∈ returned g → i ≠ j).
    { intros j Hj ->. apply Hret in Hj as [r Hr]. congruence. }
    constructor; simpl.
    + exists (tail ++ t)%list. rewrite Hc, Hcalls, app_assoc.
      rewrite length_app, map_size_insert_None by done. split; [done|]. split; [lia|].
      intros Hall. apply map_Forall_insert in Hall as [Herr Hall]; [|done].
      simpl in Herr. rewrite (Hone Herr), (Hexact Hall). lia.
    + intros j. destruct (decide (i = j)) as [<-|Hne].
      * intros _. by eapply lookup_lt_Some.
      * rewrite lookup_insert_ne by done. apply Hbound.
    + intros j Hj. rewrite lookup_insert_ne by by apply Hother. by apply Hret.
    + intros He j r Hj. rewrite lookup_insert_ne by by apply Hother. by apply Hnoerr.
  - destruct (outcome g !! i) as [[rs err]|] eqn:Hout; [|done].
    case_bool_decide as Hi; [done|].
    assert (Hret' : ∀ j, j ∈ ({[i]} ∪ returned g : gset nat) → is_Some (outcome g !! j)).
    { intros j Hj. apply elem_of_union in Hj as [Hj|Hj]; [|by apply Hret].
      apply elem_of_singleton in Hj as ->. by rewrite Hout. }
    destruct err as [err|]; intros [= <-]; constructor; simpl; try done.
    + by exists tail.
    + destruct (egErr g); discriminate.
    + by exists tail.
    + intros He j r Hj Hr. apply elem_of_union in Hj as [Hj|Hj]; [|by eapply Hnoerr].
      apply elem_of_singleton in Hj as ->. rewrite Hout in Hr. by injection Hr as <-.
Qed.

Lemma runGroup_CallsInv (w : World S) sched (g g' : Group S) :
  CallsInv names w g → runGroup ms ctx names params g sched = Some g' → CallsInv names w g'.
Proof.
  revert g. induction sched as [|ev rest IH]; intros g Hinv; simpl.
  - by intros [= <-].
  - destruct (step ms ctx names params g ev) as [g1|] eqn:Hstep; [|done].
    apply IH. by eapply step_CallsInv.
Qed.

(** X19. [GetMetrics] makes at most one call of the repository for each requested
    name, and exactly one for each when it returns no error: a name
    requested twice is queried twice. *)
Theorem GetMetrics_call_count (w w' : World S) sched rs err :
  GetMetrics ms ctx names params w sched = Some ((rs, err), w') →
  ∃ tail, calls w' = (calls w ++ tail)%list
          ∧ (length tail ≤ length names)%nat
          ∧ (err = None → length tail = length names).
Proof.
  unfold GetMetrics, goroutines.
  change {| world := w; outcome := ∅; returned := ∅;
            results := replicate (length names) MetricResult_zero; egErr := None |}
    with (newGroup names w).
  destruct (runGroup _ _ _ _ _ sched) as [g|] eqn:Hrun; [|done].
  destruct (forallb _ _) eqn:Hall; [|done].
  destruct (runGroup_CallsInv w sched _ g (CallsInv_init w) Hrun)
    as [(tail & Hcalls & Hle & Hexact) Hbound Hret Hnoerr].
  assert (Hdone : ∀ i, (i < length names)%nat → i ∈ returned g).
  { intros i Hi. rewrite forallb_forall in Hall. specialize (Hall i).
    rewrite bool_decide_eq_true in Hall. apply Hall, in_seq. lia. }
  assert (Hsize : size (outcome g) = length names).
  { rewrite <- size_dom, <- (size_set_seq (C := gset nat) 0 (length names)). f_equal.
    apply set_eq. intros i. rewrite elem_of_dom, elem_of_set_seq. split.
    - intros Hi. apply Hbound in Hi. lia.
    - intros [_ Hi]. apply Hret, Hdone. lia. }
  intros Hout.
  assert (w' = world g ∧ err = egErr g) as [-> ->]
    by (destruct (egErr g); by injection Hout as <- <- <-).
  exists tail. split; [done|]. split; [lia|]. intros He. rewrite <- Hsize. apply Hexact.
  intros i r Hr. apply (Hnoerr He i r); [|done]. apply Hdone, Hbound. eauto.
Qed.

End BatchCounting.

Section BatchSingle.
Import Models Strconv Repository Service.
Context `{FloatParser} {S : Type}.

Lemma GetMetric_results (ms : MetricService S) ctx name params (w w' : World S) rs err :
  GetMetric ms ctx name params w = ((rs, err), w') →
  match err with Some _ => rs = [] | None => ∃ r, rs = [r] end.
Proof.
  unfold GetMetric. destruct (metrics ms !! name) as [metric|]; [|by intros [= <- <- <-]].
  destruct (prepareParams metric params) as [args [e|]]; [by intros [= <- <- <-]|].
  destruct (MultiRow metric).
  - destruct (QueryMultiRow _ _ _ _ _) as [[rows [e|]] s]; intros [= <- <- <-]; eauto.
  - destruct (QuerySingleValue _ _ _ _ _) as [[result [e|]] s]; intros [= <- <- <-]; eauto.
Qed.

Lemma step_Run (ms : MetricService S) ctx (names : list string) params (g : Group S) i name :
  names !! i = Some name → outcome g !! i = None →
  step ms ctx names params g (Run i)
  = Some {| world := (GetMetric ms (egCtx ctx g) name params (world g)).2;
            outcome := <[i := (GetMetric ms (egCtx ctx g) name params (world g)).1]> (outcome g);
            returned := returned g; results := results g; egErr := egErr g |}.
Proof.
  intros Hname Hnone. simpl. rewrite Hname, Hnone.
  by destruct (GetMetric ms (egCtx ctx g) name params (world g)).
Qed.

Lemma step_Run_refused (ms : MetricService S) ctx (names : list string) params (g : Group S) i :
  names !! i = None ∨ is_Some (outcome g !! i) →
  step ms ctx names params g (Run i) = None.
Proof.
  simpl. intros [->|[r ->]]; [done|]. by destruct (names !! i).
Qed.

Lemma step_Return_refused (ms : MetricService S) ctx (names : list string) params
    (g : Group S) i :
  outcome g !! i = None ∨ i ∈ returned g →
  step ms ctx names params g (Return i) = None.
Proof.
  simpl. intros [->|Hi]; [done|]. destruct (outcome g !! i) as [[rs err]|]; [|done].
  by rewrite bool_decide_eq_true_2.
Qed.

(** X18. A batch of one name is the single resolution: its one goroutine runs and
    returns, and [GetMetrics] returns what [GetMetric] returns for the name,
    results, error and world. *)
Theorem GetMetrics_single (ms : MetricService S) ctx name params (w : World S) :
  GetMetrics ms ctx [name] params w [Run 0; Return 0]
  = Some (GetMetric ms ctx name params w)
  ∧ ∀ sched out, GetMetrics ms ctx [name] params w sched = Some out →
      sched = [Run 0; Return 0].
Proof.
  assert (Hctx : egCtx ctx (newGroup [name] w) = ctx)
    by (destruct ctx as [d]; unfold egCtx; simpl; by rewrite orb_false_r).
  unfold GetMetrics, goroutines.
  change {| world := w; outcome := ∅; returned := ∅;
            results := replicate (length [name]) MetricResult_zero; egErr := None |}
    with (newGroup [name] w).
  assert (Hrun0 : step ms ctx [name] params (newGroup [name] w) (Run 0)
                  = Some {| world := (GetMetric ms ctx name params w).2;
                            outcome := {[ 0 := (GetMetric ms ctx name params w).1 ]};
                            returned := ∅; results := [MetricResult_zero]; egErr := None |}).
  { rewrite (step_Run _ _ _ _ _ 0 name) by done. by rewrite Hctx. }
  destruct (GetMetric ms ctx name params w) as [[rs err] w'] eqn:Hget.
  apply GetMetric_results in Hget. cbn [fst snd] in Hrun0.
  set (g1 := {| world := w'; outcome := {[ 0 := (rs, err) ]}; returned := ∅;
                results := [MetricResult_zero]; egErr := None |}) in *.
  assert (Hout1 : outcome g1 !! 0 = Some (rs, err)) by apply lookup_singleton_eq.
  assert (Hin : bool_decide (0 ∈ ({[0]} ∪ ∅ : gset nat)) = true)
    by (apply bool_decide_eq_true; set_solver).
  split.
  - cbn [runGroup]. rewrite Hrun0. cbn [step]. rewrite Hout1.
    rewrite bool_decide_eq_false_2 by (simpl; set_solver).
    destruct err as [e|]; simpl; rewrite Hin; simpl.
    + by subst rs.
    + by destruct Hget as [r ->].
  - intros sched out.
    destruct sched as [|[[|i]|i] rest]; cbn [runGroup].
    + simpl. by rewrite bool_decide_eq_false_2 by set_solver.
    + rewrite Hrun0. destruct rest as [|[i|[|i]] rest]; cbn [runGroup].
      * simpl. by rewrite bool_decide_eq_false_2 by set_solver.
      * rewrite step_Run_refused; [done|]. destruct i; [right; by rewrite Hout1|by left].
      * cbn [step]. rewrite Hout1. rewrite bool_decide_eq_false_2 by (simpl; set_solver).
        destruct rest as [|ev rest]; [done|].
        assert (Hrefused : ∀ g2 : Group S,
                  outcome g2 = {[ 0 := (rs, err) ]} → returned g2 = {[0]} ∪ ∅ →
                  step ms ctx [name] params g2 ev = None).
        { intros g2 Hout2 Hret2. destruct ev as [[|i]|[|i]].
          - apply step_Run_refused. right. by rewrite Hout2, lookup_singleton_eq.
          - apply step_Run_refused. by left.
          - apply step_Return_refused. right. rewrite Hret2. set_solver.
          - apply step_Return_refused. left. by rewrite Hout2, lookup_singleton_ne. }
        destruct err as [e|]; cbn [runGroup]; by rewrite Hrefused.
      * rewrite step_Return_refused; [done|]. left. subst g1. simpl.
        by rewrite lookup_singleton_ne.
    + rewrite step_Run_refused; [done|]. by left.
    + rewrite step_Return_refused; [done|]. left. apply lookup_empty.
Qed.

End BatchSingle.

(** ** Package repository: outcomes of the two queries *)
Section RepositoryOutcomes.
Import Sql Repository.
Context {S : Type} (db : DB S).

(** X24. [QuerySingleValue] succeeds exactly when the query yields a result set
    whose first row has one column and which closes without error; the value
    is that column of the first row, a nil for a SQL NULL, and further rows
    are not looked at. *)
Theorem QuerySingleValue_success ctx query args (s s' : S) (v : any) :
  QuerySingleValue (SQLiteRepository db) ctx query args s = ((v, None), s') ↔
    ∃ rows more,
      QueryContext db ctx query args s = ((rows, None), s')
      ∧ data rows = [v] :: more ∧ CloseErr rows = None.
Proof.
  split.
  - simpl. unfold SQLite_QuerySingleValue.
    destruct (QueryContext db ctx query args s) as [[rows [e|]] s1]; simpl.
    { by destruct (isErrNoRows e). }
    destruct (data rows) as [|vals more] eqn:Hdata.
    { destruct (Err rows) as [e|]; [by destruct (isErrNoRows e)|done]. }
    unfold Rows_Scan. case_decide as Hlen; [|done].
    destruct vals as [|v0 [|? ?]]; try done. simpl.
    destruct (CloseErr rows) as [e|] eqn:Hclose; [by destruct (isErrNoRows e)|].
    intros [= <- <-]. by exists rows, more.
  - intros (rows & more & Hquery & Hdata & Hclose).
    simpl. unfold SQLite_QuerySingleValue. rewrite Hquery. unfold Row_Scan.
    rewrite Hdata. simpl. by rewrite Hclose.
Qed.

(** X25. A failed [QuerySingleValue] returns a nil value, and its error is "no
    rows returned" or "query failed" around a cause that is not
    [sql.ErrNoRows]. *)
Theorem QuerySingleValue_error ctx query args (s s' : S) (v : any) (e : error) :
  QuerySingleValue (SQLiteRepository db) ctx query args s = ((v, Some e), s') →
  v = nil_any
  ∧ (e = Errorf "no rows returned" [] None
     ∨ ∃ cause, isErrNoRows cause = false ∧ e = Errorf "query failed: %w" [] (Some cause)).
Proof.
  simpl. unfold SQLite_QuerySingleValue.
  destruct (QueryContext db ctx query args s) as [r s1].
  destruct (Row_Scan r) as [value [err|]]; [|done].
  destruct (isErrNoRows err) eqn:Hno; intros [= <- <- <-]; split; try done; [by left|].
  right. by exists err.
Qed.

(** The loop over the rows fails at the first row that [Scan] refuses, with
    the error of that [Scan] under "failed to scan row"; the rows before it
    were scanned. *)
Lemma scanRows_error columns (rest : list (list any)) acc out err :
  scanRows columns rest acc = (out, Some err) →
  out = []
  ∧ ∃ k vals cause,
      rest !! k = Some vals
      ∧ Forall (fun vals => (Rows_Scan (length columns) vals).2 = None) (take k rest)
      ∧ (Rows_Scan (length columns) vals).2 = Some cause
      ∧ err = Errorf "failed to scan row: %w" [] (Some cause).
Proof.
  revert acc. induction rest as [|vals rest IH]; intros acc; simpl; [done|].
  destruct (Rows_Scan (length columns) vals) as [values [c|]] eqn:Hscan.
  - intros [= <- <-]. split; [done|]. exists 0%nat, vals, c. rewrite Hscan.
    repeat split. constructor.
  - intros Hrest. destruct (IH _ Hrest) as (-> & k & vals' & cause & Hk & Hbefore & Hfail & ->).
    split; [done|]. exists (Datatypes.S k), vals', cause. simpl.
    repeat split; [done| |done]. constructor; [by rewrite Hscan|done].
Qed.

Lemma scanRows_no_error columns (rest : list (list any)) acc out :
  scanRows columns rest acc = (out, None) →
  Forall (fun vals => (Rows_Scan (length columns) vals).2 = None) rest.
Proof.
  revert acc. induction rest as [|vals rest IH]; intros acc; simpl; [constructor|].
  destruct (Rows_Scan (length columns) vals) as [values [c|]] eqn:Hscan; [done|].
  intros Hrest. constructor; [by rewrite Hscan|by eapply IH].
Qed.

(** X26. A failed [QueryMultiRow] returns no row, also when rows were read before
    the failure, and leaves the store as the query left it. Its error wraps
    the error of the stage that failed, under the heading of that stage, and
    the stages fail in this order: "query failed" around the error of
    [QueryContext]; "failed to get columns" around the error of [Columns];
    "failed to scan row" around the error of [Scan] at the first row that
    [Scan] refuses; "error iterating rows" around [Err], when every row was
    scanned. *)
Theorem QueryMultiRow_error ctx query args (s s' : S) results (e : error) :
  QueryMultiRow (SQLiteRepository db) ctx query args s = ((results, Some e), s') →
  results = []
  ∧ ∃ rows cause,
      (QueryContext db ctx query args s = ((rows, Some cause), s')
       ∧ e = Errorf "query failed: %w" [] (Some cause))
      ∨ (∃ columns,
           QueryContext db ctx query args s = ((rows, None), s')
           ∧ Columns rows = (columns, Some cause)
           ∧ e = Errorf "failed to get columns: %w" [] (Some cause))
      ∨ (∃ columns k vals,
           QueryContext db ctx query args s = ((rows, None), s')
           ∧ Columns rows = (columns, None)
           ∧ data rows !! k = Some vals
           ∧ Forall (fun vals => (Rows_Scan (length columns) vals).2 = None)
               (take k (data rows))
           ∧ (Rows_Scan (length columns) vals).2 = Some cause
           ∧ e = Errorf "failed to scan row: %w" [] (Some cause))
      ∨ (∃ columns,
           QueryContext db ctx query args s = ((rows, None), s')
           ∧ Columns rows = (columns, None)
           ∧ Forall (fun vals => (Rows_Scan (length columns) vals).2 = None) (data rows)
           ∧ Err rows = Some cause
           ∧ e = Errorf "error iterating rows: %w" [] (Some cause)).
Proof.
  simpl. unfold SQLite_QueryMultiRow.
  destruct (QueryContext db ctx query args s) as [[rows [err|]] s1].
  { intros [= <- <- <-]. split; [done|]. exists rows, err. by left. }
  destruct (Columns rows) as [columns [err|]] eqn:Hcols.
  { intros [= <- <- <-]. split; [done|]. exists rows, err. right. left. by exists columns. }
  destruct (scanRows columns (data rows) []) as [out [err|]] eqn:Hscan.
  - intros [= <- <- <-]. split; [done|].
    apply scanRows_error in Hscan as (_ & k & vals & cause & Hk & Hbefore & Hfail & ->).
    exists rows, cause. right. right. left. by exists columns, k, vals.
  - destruct (Err rows) as [err|] eqn:Herr; [|done].
    intros [= <- <- <-]. split; [done|]. exists rows, err. repeat right.
    exists columns. repeat split; try done. by eapply scanRows_no_error.
Qed.

Lemma fillRow_keys columns i values (row : gmap string any) (col : string) :
  is_Some (fillRow i columns values row !! col) ↔ col ∈ columns ∨ is_Some (row !! col).
Proof.
  revert i row. induction columns as [|c rest IH]; intros i row; simpl.
  - rewrite elem_of_nil. tauto.
  - rewrite IH, elem_of_cons. destruct (decide (c = col)) as [->|Hne].
    + rewrite lookup_insert_eq. split; [intros _; by left; left|eauto].
    + rewrite lookup_insert_ne by done. split; [tauto|].
      intros [[?|?]|?]; [congruence|tauto|tauto].
Qed.

(** X27. In every row that [QueryMultiRow] returns, the keys are the names of the
    columns of the result set and nothing else; when the column names are
    pairwise distinct, the row has as many entries as there are columns. *)
Theorem QueryMultiRow_row_keys ctx query args (s s' : S) rows results :
  QueryContext db ctx query args s = ((rows, None), s') →
  QueryMultiRow (SQLiteRepository db) ctx query args s = ((results, None), s') →
  ∀ row, row ∈ results →
    (∀ col, is_Some (row !! col) ↔ col ∈ (Columns rows).1)
    ∧ (NoDup (Columns rows).1 → size row = length (Columns rows).1).
Proof.
  intros Hquery Hmulti.
  apply QueryMultiRow_ok in Hmulti as (rows' & columns & Hquery' & Hcols & -> & _).
  rewrite Hquery in Hquery'. injection Hquery' as <-. rewrite Hcols. simpl.
  intros row Hrow. apply list_elem_of_fmap in Hrow as (vals & -> & _).
  assert (Hkeys : ∀ col, is_Some (fillRow 0 columns vals ∅ !! col) ↔ col ∈ columns).
  { intros col. rewrite fillRow_keys, lookup_empty. split; [|tauto].
    intros [?|[? ?]]; done. }
  split; [exact Hkeys|]. intros Hnd.
  rewrite <- size_dom, <- (size_list_to_set (C := gset string) columns) by done.
  f_equal. apply set_eq. intros col. by rewrite elem_of_dom, elem_of_list_to_set.
Qed.

End RepositoryOutcomes.

(** ** Package service: results, and the service over the SQLite repository *)
Section EndToEnd.
Import Models Sql Strconv Repository Service.
Context `{FloatParser} {S : Type}.

(** X16. A successful [GetMetric] returns one result: its value is the value that
    the repository returned, as a row set for a multi-row metric and as a
    scalar otherwise, and the store is the one the repository left. *)
Theorem GetMetric_success (ms : MetricService S) ctx name params (w w' : World S) rs :
  GetMetric ms ctx name params w = ((rs, None), w') →
  ∃ metric args,
    metrics ms !! name = Some metric
    ∧ prepareParams metric params = (args, None)
    ∧ if MultiRow metric
      then ∃ rows,
             QueryMultiRow (repo ms) ctx (Query metric) args (store w)
             = ((rows, None), store w')
             ∧ rs = [ {| mr_Name := Name metric; mr_Value := RowSet rows |} ]
      else ∃ v,
             QuerySingleValue (repo ms) ctx (Query metric) args (store w)
             = ((v, None), store w')
             ∧ rs = [ {| mr_Name := Name metric; mr_Value := Scalar v |} ].
Proof.
  unfold GetMetric. destruct (metrics ms !! name) as [metric|] eqn:Hlookup; [|done].
  destruct (prepareParams metric params) as [args [e|]] eqn:Hprep; [done|].
  destruct (MultiRow metric) eqn:Hmulti.
  - destruct (QueryMultiRow _ _ _ _ _) as [[rows [e|]] s] eqn:Hq; intros [= <- <-].
    exists metric, args. rewrite Hmulti. split; [done|]. split; [done|]. by exists rows.
  - destruct (QuerySingleValue _ _ _ _ _) as [[v [e|]] s] eqn:Hq; intros [= <- <-].
    exists metric, args. rewrite Hmulti. split; [done|]. split; [done|]. by exists v.
Qed.

(** X17. Over the SQLite repository, a metric whose query yields a result set
    with no row resolves to an empty row set when it is a multi-row metric,
    and fails with "no rows returned", wrapped with the name of the metric,
    when it is a single-value one. *)
Theorem GetMetric_sqlite_no_rows (db : DB S) metricsList ctx name params (w : World S)
    metric args rows columns s' :
  metrics (NewMetricService (SQLiteRepository db) metricsList) !! name = Some metric →
  prepareParams metric params = (args, None) →
  QueryContext db ctx (Query metric) args (store w) = ((rows, None), s') →
  Columns rows = (columns, None) → data rows = [] → Err rows = None →
  (GetMetric (NewMetricService (SQLiteRepository db) metricsList) ctx name params w).1
  = if MultiRow metric
    then ([ {| mr_Name := Name metric; mr_Value := RowSet [] |} ], None)
    else ([], Some (Errorf "metric %q failed: %w" [Name metric]
                      (Some (Errorf "no rows returned" [] None)))).
Proof.
  intros Hlookup Hprep Hquery Hcols Hdata Herr. unfold GetMetric.
  rewrite Hlookup, Hprep. simpl.
  unfold SQLite_QueryMultiRow, SQLite_QuerySingleValue, Row_Scan.
  rewrite Hquery, Hcols, Hdata, Herr. simpl. by destruct (MultiRow metric).
Qed.

End EndToEnd.

Section InvalidRequests.
Import Models Strconv Repository Service.
Context `{FloatParser} {S : Type}.
Variables (ms : MetricService S) (ctx : Context).
Variables (names : list string) (params : gmap string string).

(** Every recorded outcome is the outcome of [GetMetric] for the name of its
    index, in some context and some world. *)
Lemma runGroup_outcomes sched (g g' : Group S) :
  (∀ i r, outcome g !! i = Some r →
     ∃ name c w0, names !! i = Some name ∧ (GetMetric ms c name params w0).1 = r) →
  runGroup ms ctx names params g sched = Some g' →
  ∀ i r, outcome g' !! i = Some r →
    ∃ name c w0, names !! i = Some name ∧ (GetMetric ms c name params w0).1 = r.
Proof.
  revert g. induction sched as [|ev rest IH]; intros g Hg; simpl.
  - by intros [= <-].
  - destruct (step ms ctx names params g ev) as [g1|] eqn:Hstep; [|done].
    apply IH. clear IH. destruct ev as [i|i]; simpl in Hstep.
    + destruct (names !! i) as [name|] eqn:Hname; [|done].
      destruct (outcome g !! i); [done|].
      destruct (GetMetric ms (egCtx ctx g) name params (world g)) as [r w1] eqn:Hget.
      injection Hstep as <-. simpl. intros j r'. destruct (decide (i = j)) as [<-|Hne].
      * rewrite lookup_insert_eq. intros [= <-].
        exists name, (egCtx ctx g), (world g). by rewrite Hget.
      * rewrite lookup_insert_ne by done. apply Hg.
    + destruct (outcome g !! i) as [[rs err]|]; [|done]. case_bool_decide; [done|].
      destruct err; injection Hstep as <-; apply Hg.
Qed.

(** X23. A batch with a name that is not registered, or whose parameters cannot
    be prepared, fails whatever the schedule and whatever the other names
    are: [GetMetrics] returns an error and no result. *)
Theorem GetMetrics_invalid_request (w : World S) sched out i name :
  names !! i = Some name →
  (metrics ms !! name = None
   ∨ ∃ metric, metrics ms !! name = Some metric
               ∧ is_Some (prepareParams metric params).2) →
  GetMetrics ms ctx names params w sched = Some out →
  ∃ e, out.1 = ([], Some e).
Proof.
  intros Hname Hinvalid.
  assert (Hfails : ∀ c w0, is_Some (GetMetric ms c name params w0).1.2).
  { intros c w0. unfold GetMetric. destruct Hinvalid as [->|(metric & -> & Hprep)]; [by eexists|].
    destruct (prepareParams metric params) as [args [e|]]; [by eexists|].
    by destruct Hprep. }
  unfold GetMetrics, goroutines.
  change {| world := w; outcome := ∅; returned := ∅;
            results := replicate (length names) MetricResult_zero; egErr := None |}
    with (newGroup names w).
  destruct (runGroup _ _ _ _ _ sched) as [g|] eqn:Hrun; [|done].
  destruct (forallb _ _) eqn:Hall; [|done].
  destruct (runGroup_CallsInv ms ctx names params w sched _ g (CallsInv_init names w) Hrun)
    as [_ _ Hret Hnoerr].
  assert (Hi : i ∈ returned g).
  { rewrite forallb_forall in Hall. specialize (Hall i).
    rewrite bool_decide_eq_true in Hall. apply Hall, in_seq.
    apply lookup_lt_Some in Hname. lia. }
  destruct (Hret i Hi) as [r Hr].
  assert (Hinit : ∀ j r', outcome (newGroup names w) !! j = Some r' →
            ∃ name c w0, names !! j = Some name ∧ (GetMetric ms c name params w0).1 = r')
    by (intros j r' Hj; simpl in Hj; by rewrite lookup_empty in Hj).
  destruct (runGroup_outcomes sched _ g Hinit Hrun i r Hr)
    as (name' & c & w0 & Hname' & Hget).
  assert (name' = name) as -> by congruence.
  destruct (Hfails c w0) as [e He]. rewrite Hget in He.
  destruct (egErr g) as [first|] eqn:Hfirst.
  - intros [= <-]. by exists first.
  - specialize (Hnoerr eq_refl i r Hi Hr). congruence.
Qed.

End InvalidRequests.

(** ** The further properties at the data of the repository's tests *)
Section FurtherWitnesses.
Import Models Config Sql Strconv Repository Service Examples.

(** [Metric_Validate_error] at the metric whose parameter has no name. *)
Lemma Metric_Validate_error_witness :
  Validate unnamed_param = Some ErrParamNameEmpty ∧ Name unnamed_param ≠ "".
Proof.
  destruct (Metric_Validate_error unnamed_param ErrParamNameEmpty eq_refl)
    as [[Hname _]|[(_ & Hquery & _)|(Hname & _)]].
  - discriminate Hname.
  - discriminate Hquery.
  - split; [reflexivity|exact Hname].
Defined.

(** [validateMetrics_error] at the two definitions of one name. *)
Lemma validateMetrics_error_witness :
  ∃ i j a b, (j < i)%nat ∧ duplicates !! i = Some a ∧ duplicates !! j = Some b ∧ Name b = Name a.
Proof.
  destruct (validateMetrics_error duplicates
              (Errorf "duplicate metric name: %s" ["duplicate"] None) eq_refl)
    as [[Hnil _]|(i & a & Ha & _ & _ & [(_ & j & b & Hlt & Hb & Hname)|(cause & Herr & _)])].
  - discriminate Hnil.
  - by exists i, j, a, b.
  - discriminate Herr.
Defined.

(** [LoadConfig_sound] at the catalog of the specification's scenario. *)
Lemma LoadConfig_sound_witness :
  catalog ≠ [] ∧ NoDup (Name <$> catalog).
Proof.
  destruct (LoadConfig_sound (fun _ => ({| Metrics := catalog |}, None)) "metrics.toml"
              catalog None eq_refl) as (_ & Hne & Hnd & _).
  by split.
Defined.

(** [NewMetricService_lookup_distinct] at the catalog. *)
Lemma NewMetricService_lookup_distinct_witness :
  metrics (NewMetricService (mockRepository (int64 100) None [] None) catalog) !! "rows_by_id"
  = Some rows_by_id.
Proof.
  apply NewMetricService_lookup_distinct.
  - apply (bool_decide_unpack _). vm_compute. reflexivity.
  - split; [|reflexivity]. apply list_elem_of_further, list_elem_of_here.
Defined.

(** [GetMetricNames_registered] at the catalog, in the order of the map. *)
Lemma GetMetricNames_registered_witness :
  length (GetMetricNames (NewMetricService (mockRepository (int64 100) None [] None) catalog)
            (map_to_list
               (metrics (NewMetricService (mockRepository (int64 100) None [] None) catalog))))
  = size (metrics (NewMetricService (mockRepository (int64 100) None [] None) catalog)).
Proof.
  destruct (GetMetricNames_registered
              (NewMetricService (mockRepository (int64 100) None [] None) catalog)
              (map_to_list
                 (metrics (NewMetricService (mockRepository (int64 100) None [] None) catalog))))
    as (_ & _ & Hlen).
  - unfold rangeOrder. reflexivity.
  - exact Hlen.
Defined.

(** [GetMetricNames_of_list] at the catalog, in the order of the map. *)
Lemma GetMetricNames_of_list_witness :
  GetMetricNames (NewMetricService (mockRepository (int64 100) None [] None) catalog)
    (map_to_list
       (metrics (NewMetricService (mockRepository (int64 100) None [] None) catalog)))
  ≡ₚ ["total_count"; "rows_by_id"].
Proof.
  apply (GetMetricNames_of_list (mockRepository (int64 100) None [] None) catalog).
  - apply (bool_decide_unpack _). vm_compute. reflexivity.
  - unfold rangeOrder. reflexivity.
Defined.

(** [convertParamValue_typed] at the integer [42]. *)
Lemma convertParamValue_typed_witness : IsValid ParamTypeInt = true.
Proof.
  destruct (convertParamValue_typed (H := noFloats) "42" ParamTypeInt (int64 42) None eq_refl)
    as [Hvalid _].
  exact Hvalid.
Defined.

(** [prepareParams_failure] at [rows_by_id] without its parameter. *)
Lemma prepareParams_failure_witness :
  ∃ k paramDef, Params rows_by_id !! k = Some paramDef
                ∧ Forall (paramReady (H := noFloats) ∅) (take k (Params rows_by_id)).
Proof.
  destruct (prepareParams_failure (H := noFloats) rows_by_id ∅ []
              (Errorf "metric %q: required parameter %q is missing" ["rows_by_id"; "id"] None))
    as (_ & k & paramDef & Hk & Hbefore & _).
  - reflexivity.
  - by exists k, paramDef.
Defined.

(** [prepareParams_validated] at [rows_by_id] with [id = nope]. *)
Lemma prepareParams_validated_witness : ∃ paramDef, paramDef ∈ Params rows_by_id.
Proof.
  destruct (prepareParams_validated (H := noFloats) rows_by_id {[ "id" := "nope" ]} []
              (Errorf "metric %q: parameter %q: %w" ["rows_by_id"; "id"]
                 (Some (Errorf "invalid integer value %q: %w" ["nope"]
                          (Some (syntaxError "ParseInt" "nope"))))))
    as (paramDef & Hin & _).
  - reflexivity.
  - vm_compute. reflexivity.
  - by exists paramDef.
Defined.

(** [GetMetric_one_call] at [total_count]. *)
Lemma GetMetric_one_call_witness :
  ∃ metric args,
    metrics (NewMetricService (mockRepository (int64 100) None [] None) catalog)
      !! "total_count" = Some metric
    ∧ prepareParams (H := noFloats) metric ∅ = (args, None).
Proof.
  edestruct (GetMetric_one_call (H := noFloats)
               (NewMetricService (mockRepository (int64 100) None [] None) catalog)
               Background "total_count" ∅ freshWorld)
    as [[[e He] _]|(metric & args & Hlookup & Hprep & _)].
  - vm_compute. reflexivity.
  - discriminate He.
  - by exists metric, args.
Defined.

(** [GetMetric_error] at a metric whose one repository call fails. *)
Lemma GetMetric_error_witness :
  (GetMetric (H := noFloats) (testService (testRepositoryWithFailure 0))
     Background "active_users" ∅ freshWorld).1.1 = [].
Proof.
  edestruct (GetMetric_error (H := noFloats) (testService (testRepositoryWithFailure 0))
               Background "active_users" ∅ freshWorld) as [Hrs _].
  - vm_compute. reflexivity.
  - exact Hrs.
Defined.

(** [GetMetrics_first_error] on a repository that fails from its second
    call on: the second goroutine runs and returns first. *)
Lemma GetMetrics_first_error_witness :
  ∃ e out,
    GetMetrics (H := noFloats) (testService (testRepositoryWithFailure 1)) Background
      ["active_users"; "signups"] ∅ freshWorld
      ([Run 1; Run 0; Return 0] ++ [Return 1]) = Some out
    ∧ out.1 = ([], Some e).
Proof.
  do 2 eexists. split; [vm_compute; reflexivity|].
  eapply (GetMetrics_first_error (H := noFloats) (testService (testRepositoryWithFailure 1))
            Background ["active_users"; "signups"] ∅ freshWorld
            [Run 1; Run 0; Return 0] [Return 1]).
  - vm_compute. reflexivity.
  - reflexivity.
  - vm_compute. reflexivity.
Defined.

(** [GetMetrics_cancels_siblings] at a group whose first goroutine has
    failed: the second one calls the repository with a cancelled context. *)
Lemma GetMetrics_cancels_siblings_witness :
  ∃ g2 tail,
    runGroup (H := noFloats) (testService (mockRepository (int64 100) None [] None))
      Background ["active_users"; "signups"] ∅ failedGroup [Run 1; Return 1] = Some g2
    ∧ calls (world g2) = (calls (world failedGroup) ++ tail)%list
    ∧ Forall (fun c => Done (callCtx c) = true) tail.
Proof.
  eexists. 
  edestruct (GetMetrics_cancels_siblings (H := noFloats)
               (testService (mockRepository (int64 100) None [] None))
               Background ["active_users"; "signups"] ∅ [Run 1; Return 1] failedGroup)
    as (tail & Hcalls & Hall).
  - reflexivity.
  - vm_compute. reflexivity.
  - exists tail. split; [reflexivity|]. by split.
Defined.

(** [GetMetrics_success_context] at the batch of the concurrency test. *)
Lemma GetMetrics_success_context_witness :
  ∃ (w' : World nat) tail, calls w' = (calls freshWorld ++ tail)%list
             ∧ Forall (fun c => callCtx c = Background) tail.
Proof.
  eexists.
  eapply (GetMetrics_success_context (H := noFloats)
            (testService (mockRepository (int64 100) None [] None))
            Background ["active_users"; "signups"; "revenue"] ∅ freshWorld _
            [Run 2; Run 0; Return 0; Run 1; Return 1; Return 2]).
  vm_compute. reflexivity.
Defined.

(** [GetMetrics_call_count] at a batch with a name requested twice. *)
Lemma GetMetrics_call_count_witness :
  ∃ (w' : World nat) tail, calls w' = (calls freshWorld ++ tail)%list
             ∧ (length tail ≤ 3)%nat ∧ (@None error = None → length tail = 3).
Proof.
  eexists.
  eapply (GetMetrics_call_count (H := noFloats)
            (testService (mockRepository (int64 100) None [] None))
            Background ["revenue"; "active_users"; "revenue"] ∅ freshWorld _
            [Run 2; Run 0; Return 0; Run 1; Return 1; Return 2]).
  vm_compute. reflexivity.
Defined.

(** [QuerySingleValue_error] at the query of no row. *)
Lemma QuerySingleValue_error_witness :
  (QuerySingleValue (SQLiteRepository (constDB noMatch)) Background
     "SELECT name FROM test_data WHERE id = ?" [int64 999] tt).1.1 = nil_any.
Proof.
  edestruct (QuerySingleValue_error (constDB noMatch) Background
               "SELECT name FROM test_data WHERE id = ?" [int64 999] tt) as [Hv _].
  - reflexivity.
  - exact Hv.
Defined.

(** [QueryMultiRow_error] at a result set whose iteration fails after its
    first row: the row is not returned. *)
Lemma QueryMultiRow_error_witness :
  (QueryMultiRow (SQLiteRepository (constDB interrupted)) Background
     "SELECT name FROM test_data" [] tt).1.1 = [].
Proof.
  edestruct (QueryMultiRow_error (constDB interrupted) Background
               "SELECT name FROM test_data" [] tt) as [Hrows _].
  - reflexivity.
  - exact Hrows.
Defined.

(** [QueryMultiRow_row_keys] at the first row of [withNull]. *)
Lemma QueryMultiRow_row_keys_witness :
  size (fillRow 0 ["id"; "optional"] [int64 1; str "value1"] ∅) = 2.
Proof.
  destruct (QueryMultiRow_row_keys (constDB withNull) Background
              "SELECT id, optional FROM test_data ORDER BY id" [] tt tt withNull
              (QueryMultiRow (SQLiteRepository (constDB withNull)) Background
                 "SELECT id, optional FROM test_data ORDER BY id" [] tt).1.1
              eq_refl eq_refl
              (fillRow 0 ["id"; "optional"] [int64 1; str "value1"] ∅)) as [_ Hsize].
  - apply list_elem_of_here.
  - apply Hsize. apply (bool_decide_unpack _). vm_compute. reflexivity.
Defined.

(** [GetMetric_success] at [total_count]. *)
Lemma GetMetric_success_witness :
  ∃ v, (GetMetric (H := noFloats)
          (NewMetricService (mockRepository (int64 100) None [] None) catalog)
          Background "total_count" ∅ freshWorld).1.1
       = [ {| mr_Name := Name total_count; mr_Value := Scalar v |} ].
Proof.
  edestruct (GetMetric_success (H := noFloats)
               (NewMetricService (mockRepository (int64 100) None [] None) catalog)
               Background "total_count" ∅ freshWorld)
    as (metric & args & Hlookup & _ & Hresult).
  - vm_compute. reflexivity.
  - vm_compute in Hlookup. injection Hlookup as <-.
    destruct Hresult as (v & _ & Hrs). exists v. refine (eq_trans _ Hrs).
    vm_compute. reflexivity.
Defined.

(** [GetMetric_sqlite_no_rows] at a single-value metric. *)
Lemma GetMetric_sqlite_no_rows_witness :
  (GetMetric (H := noFloats) (NewMetricService (SQLiteRepository (constDB noMatch)) catalog)
     Background "total_count" ∅ {| store := tt; calls := [] |}).1
  = ([], Some (Errorf "metric %q failed: %w" ["total_count"]
                 (Some (Errorf "no rows returned" [] None)))).
Proof.
  apply (GetMetric_sqlite_no_rows (H := noFloats) (constDB noMatch) catalog Background
           "total_count" ∅ {| store := tt; calls := [] |} total_count [] noMatch ["name"] tt);
    reflexivity.
Defined.

(** [GetMetrics_invalid_request] at a batch whose second name is not
    registered. *)
Lemma GetMetrics_invalid_request_witness :
  ∃ out,
    GetMetrics (H := noFloats) (testService (mockRepository (int64 100) None [] None))
      Background ["active_users"; "nope"] ∅ freshWorld
      [Run 0; Run 1; Return 0; Return 1] = Some out
    ∧ ∃ e, out.1 = ([], Some e).
Proof.
  eexists. split; [vm_compute; reflexivity|].
  eapply (GetMetrics_invalid_request (H := noFloats)
            (testService (mockRepository (int64 100) None [] None))
            Background ["active_users"; "nope"] ∅ freshWorld
            [Run 0; Run 1; Return 0; Return 1] _ 1 "nope").
  - reflexivity.
  - left. vm_compute. reflexivity.
  - vm_compute. reflexivity.
Defined.

End FurtherWitnesses.
